(** * A traced Flask application (src/app.py)

    The application serves six routes.  Every handler wraps its work in
    OpenTelemetry spans ([tracer.start_as_current_span]), annotates them
    with attributes and events, and returns a JSON response; one global
    error handler turns every exception into a 500 envelope.

    The handlers are embedded as computations in a state-and-exception
    monad over a [world]: the span store and current-span pointer of the
    tracer, the wall clock and the random generator (both as oracles that
    are read in order), and a journal of the effects performed. *)

From Stdlib Require Import ZArith QArith Qabs Qpower String List Floats Lia Lqa.
From stdpp Require Import base list strings gmap.

Open Scope string_scope.
Open Scope list_scope.

#[local] Set Warnings "-register-all,-inexact-float".

(** ** Python values *)

(** Scalars that can be attached to a span (str, int, float, bool). *)
Inductive value :=
  | VStr (s : string)
  | VInt (n : Z)
  | VFloat (f : float)
  | VBool (b : bool).

(** JSON documents, as [jsonify] receives them: dicts keep the order in
    which the source writes their keys. *)
Inductive json :=
  | JNull
  | JBool (b : bool)
  | JInt (n : Z)
  | JFloat (f : float)
  | JStr (s : string)
  | JList (l : list json)
  | JDict (kvs : list (string * json)).

(** An exception object: its class name, its message ([str(e)] for an
    exception built from one string) and the frames it was raised in. *)
Record exn := Exn {
  exc_type : string;
  exc_message : string;
  exc_stack : list string
}.

Definition str (e : exn) : string := exc_message e.

(** ** Spans *)

Inductive StatusCode := UNSET | OK | ERROR.

(** [Status(code, description)]; the description is optional. *)
Record Status := mkStatus {
  status_code : StatusCode;
  description : option string
}.

Record event := Event {
  ev_name : string;
  ev_time : float;
  ev_attributes : gmap string value
}.

Record span := Span {
  span_name : string;
  span_parent : option nat;
  start_time : float;
  end_time : option float;
  status : Status;
  attributes : gmap string value;
  events : list event
}.

(** Effects that leave no mark on a span but that the properties below
    talk about: span life-cycle operations and calls of [time.sleep]. *)
Inductive effect :=
  | SpanStarted (id : nat)
  | SpanEnded (id : nat)
  | Slept (seconds : float).

(** ** The world a request runs in *)

Record world := World {
  clock : nat -> float;      (* the n-th reading of the wall clock *)
  ticks : nat;               (* readings taken so far *)
  rng : nat -> float;        (* the n-th value of random.random() *)
  draws : nat;               (* values drawn so far *)
  spans : list span;         (* every span created; a span's id is its index *)
  current : option nat;      (* the current span of the context, if any *)
  journal : list effect      (* effects performed, oldest first *)
}.

Definition tick (w : world) : world :=
  World (clock w) (S (ticks w)) (rng w) (draws w) (spans w) (current w) (journal w).

Definition drawn (w : world) : world :=
  World (clock w) (ticks w) (rng w) (S (draws w)) (spans w) (current w) (journal w).

Definition with_spans (f : list span -> list span) (w : world) : world :=
  World (clock w) (ticks w) (rng w) (draws w) (f (spans w)) (current w) (journal w).

Definition with_current (c : option nat) (w : world) : world :=
  World (clock w) (ticks w) (rng w) (draws w) (spans w) c (journal w).

Definition logged (e : effect) (w : world) : world :=
  World (clock w) (ticks w) (rng w) (draws w) (spans w) (current w) (journal w ++ [e]).

(** ** Computations: state passing with exceptions *)

Inductive outcome (A : Type) :=
  | Return (a : A)
  | Raise (e : exn).
Arguments Return {A} a.
Arguments Raise {A} e.

Definition M (A : Type) : Type := world -> outcome A * world.

#[global] Instance M_ret : MRet M := fun A a w => (Return a, w).

#[global] Instance M_bind : MBind M := fun A B f m w =>
  match m w with
  | (Return a, w') => f a w'
  | (Raise e, w') => (Raise e, w')
  end.

Definition raise {A} (e : exn) : M A := fun w => (Raise e, w).

(** [try: m finally: cleanup]: the cleanup runs on both exits and the
    outcome of [m] is passed on. *)
Definition finally {A} (m : M A) (cleanup : world -> world) : M A := fun w =>
  let (r, w') := m w in (r, cleanup w').

(** [try: m except BaseException as exc: handler(exc); raise]: the handler
    runs when [m] raises, and the exception is passed on. *)
Definition on_error {A} (m : M A) (handler : exn -> M unit) : M A := fun w =>
  match m w with
  | (Raise e, w') => let (_, w'') := handler e w' in (Raise e, w'')
  | r => r
  end.

Definition modify (f : world -> world) : M unit := fun w => (Return tt, f w).

(** ** Library calls *)

(** [time.time()]: the next reading of the clock. *)
Definition time_time : M float := fun w => (Return (clock w (ticks w)), tick w).

(** [time.sleep(d)]: the request is journalled.  How long the call really
    takes shows only in later clock readings. *)
Definition time_sleep (d : float) : M unit := modify (logged (Slept d)).

(** [random.random()]: the next value of the generator. *)
Definition random_random : M float := fun w => (Return (rng w (draws w)), drawn w).

(** [random.uniform(a, b)] is [a + (b-a) * random()]. *)
Definition random_uniform (a b : float) : M float :=
  r ← random_random; mret (a + (b - a) * r)%float.

(** [round(x, 2)]: the decimal with two places nearest to the exact value
    of [x], ties to even, then the double nearest to that decimal. *)
Definition half_even (n d : Z) : Z :=
  let q := (n / d)%Z in
  let r := (n mod d)%Z in
  if (2 * r <? d)%Z then q
  else if (d <? 2 * r)%Z then (q + 1)%Z
  else if Z.even q then q else (q + 1)%Z.

Definition hundredths (m : positive) (e : Z) : Z :=
  if (0 <=? e)%Z then (Zpos m * 100 * 2 ^ e)%Z
  else half_even (Zpos m * 100) (2 ^ (- e)).

Definition round2 (x : float) : float :=
  match Prim2SF x with
  | S754_finite s m e =>
      match hundredths m e with
      | Zpos n => SF2Prim (SFdiv prec emax (S754_finite s n 0) (S754_finite false 100 0))
      | _ => SF2Prim (S754_zero s)
      end
  | _ => x
  end.

(** ** The tracer

    OpenTelemetry is not part of the repository; these operations follow
    the contract the specification gives for it, and the library where the
    specification is silent.  The operations on a span are the ones of a
    span that is recording: the handlers call them inside the block of
    their span. *)

(** Modelled from the spec: [trace.get_current_span()], the span of the
    calling context; [None] stands for the absence of an active span. *)
Definition get_current_span : M (option nat) := fun w => (Return (current w), w).

Definition set_span_attribute (k : string) (v : value) (s : span) : span :=
  Span (span_name s) (span_parent s) (start_time s) (end_time s) (status s)
       (<[k := v]> (attributes s)) (events s).

Definition add_span_event (ev : event) (s : span) : span :=
  Span (span_name s) (span_parent s) (start_time s) (end_time s) (status s)
       (attributes s) (events s ++ [ev]).

Definition set_span_status (st : Status) (s : span) : span :=
  Span (span_name s) (span_parent s) (start_time s) (end_time s) st
       (attributes s) (events s).

Definition end_span_at (t : float) (s : span) : span :=
  Span (span_name s) (span_parent s) (start_time s) (Some t) (status s)
       (attributes s) (events s).

(** Modelled from the spec: [set_attribute(handle, key, value)] attaches a
    scalar; a second call with the same key overwrites. *)
Definition set_attribute (id : nat) (k : string) (v : value) : M unit :=
  modify (with_spans (alter (set_span_attribute k v) id)).

(** Modelled from the spec: [add_event(handle, name, payload?)] appends a
    timestamped event; events keep insertion order.  (Of a span that is
    recording; what the library does with a call on a span that has ended
    is not modelled.) *)
Definition add_event (id : nat) (name : string) (payload : gmap string value) : M unit :=
  fun w =>
    (Return tt,
     tick (with_spans (alter (add_span_event (Event name (clock w (ticks w)) payload)) id) w)).

(** Modelled from the spec: [set_status(handle, status, message?)] sets the
    status of the span.  (Of a span that is recording and whose status is
    not Ok; what the library does with a call on a span that has ended or
    is Ok is not modelled.) *)
Definition set_status (id : nat) (st : Status) : M unit :=
  modify (with_spans (alter (set_span_status st) id)).

(** Modelled from the spec: [record_exception(handle, error)] attaches the
    type, message and stack of the exception as a structured event. *)
Definition exception_payload (e : exn) : gmap string value :=
  <["exception.type" := VStr (exc_type e)]>
  (<["exception.message" := VStr (exc_message e)]>
  (<["exception.stacktrace" := VStr (String.concat "/" (exc_stack e))]> ∅)).

Definition record_exception (id : nat) (e : exn) : M unit :=
  add_event id "exception" (exception_payload e).

Definition new_span (name : string) (parent : option nat) (t : float) : span :=
  Span name parent t None (mkStatus UNSET None) ∅ [].

(** Modelled from the spec: [start_span(name)] begins a span nested under
    the current one and makes it current. *)
Definition start_span (name : string) : M nat := fun w =>
  let id := length (spans w) in
  (Return id,
   logged (SpanStarted id)
     (with_current (Some id)
        (tick (with_spans (fun l => l ++ [new_span name (current w) (clock w (ticks w))]) w)))).

(** Modelled from the spec: the implicit close on scope exit restores the
    previous current span and records the end time; the status is left as
    it is, so a span whose status was never set ends as Unset. *)
Definition end_span (id : nat) (prev : option nat) (w : world) : world :=
  logged (SpanEnded id)
    (tick (with_spans (alter (end_span_at (clock w (ticks w))) id) (with_current prev w))).

(** The status that a block left by an exception gives its span:
    [Status(StatusCode.ERROR, f"{type(exc).__name__}: {exc}")]. *)
Definition exception_status (e : exn) : Status :=
  mkStatus ERROR (Some (String.append (exc_type e) (String.append ": " (str e)))).

(** [with tracer.start_as_current_span(name) as span: body], with the
    defaults of the library (record_exception=True,
    set_status_on_exception=True, end_on_exit=True): when the block is left
    by an exception, the exception is recorded on the span as an event and
    the status of the span is set to Error with the type and the message
    of the exception, and the exception is passed on; on both exits the
    span is ended and the previous current span restored. *)
Definition start_as_current_span {A} (name : string) (body : nat -> M A) : M A :=
  prev ← get_current_span;
  id ← start_span name;
  finally
    (on_error (body id)
       (fun exc => record_exception id exc;; set_status id (exception_status exc)))
    (end_span id prev).

(** ** Flask *)

Record response := Response {
  resp_status : nat;
  resp_body : json
}.

(** [jsonify(d)]: a JSON response with status 200. *)
Definition jsonify (d : json) : response := Response 200 d.

(** ** Fixtures of the handlers *)

Record user := User {
  user_id : Z;
  user_name : string;
  user_email : string
}.

Definition user_json (u : user) : json :=
  JDict [("id", JInt (user_id u)); ("name", JStr (user_name u)); ("email", JStr (user_email u))].

Record order := Order {
  order_id : Z;
  order_user_id : Z;
  order_total : float;
  order_status : string
}.

Definition order_json (o : order) : json :=
  JDict [("id", JInt (order_id o)); ("user_id", JInt (order_user_id o));
         ("total", JFloat (order_total o)); ("status", JStr (order_status o))].

Definition users : list user :=
  [ User 1 "Alice" "alice@example.com";
    User 2 "Bob" "bob@example.com";
    User 3 "Charlie" "charlie@example.com" ].

Definition orders : list order :=
  [ Order 101 1 99.99 "shipped";
    Order 102 2 149.50 "pending";
    Order 103 1 29.99 "delivered" ].

(** [len(l)] *)
Definition len {A} (l : list A) : Z := Z.of_nat (length l).

(** [sum(order["total"] for order in orders)]: the totals are added from
    left to right, starting from 0. *)
Definition total_of (os : list order) : float :=
  fold_left (fun acc o => (acc + order_total o)%float) os 0%float.

(** ** The handlers *)

Definition home : M response :=
  start_as_current_span "home_handler" (fun span =>
    set_attribute span "endpoint" (VStr "/");;
    set_attribute span "handler" (VStr "home");;
    add_event span "Returning welcome message" ∅;;
    mret (jsonify (JDict
      [("message", JStr "Welcome to the traced web app!");
       ("endpoints", JList [JStr "/"; JStr "/health"; JStr "/api/users";
                            JStr "/api/orders"; JStr "/api/slow"])]))).

Definition health : M response :=
  start_as_current_span "health_check" (fun span =>
    set_attribute span "endpoint" (VStr "/health");;
    set_attribute span "status" (VStr "healthy");;
    add_event span "Health check performed" ∅;;
    now ← time_time;
    mret (jsonify (JDict [("status", JStr "healthy"); ("timestamp", JFloat now)]))).

Definition get_users : M response :=
  start_as_current_span "get_users" (fun span =>
    set_attribute span "endpoint" (VStr "/api/users");;
    set_attribute span "operation" (VStr "fetch_users");;
    start_as_current_span "database_query" (fun db_span =>
      set_attribute db_span "db.system" (VStr "postgresql");;
      set_attribute db_span "db.operation" (VStr "SELECT");;
      set_attribute db_span "db.table" (VStr "users");;
      delay ← random_uniform 0.01 0.05;
      time_sleep delay;;
      set_attribute db_span "db.query_time_ms" (VFloat (round2 (delay * 1000)));;
      add_event db_span "Users fetched from database" ∅);;
    set_attribute span "user.count" (VInt (len users));;
    add_event span "Users retrieved successfully" {["count" := VInt (len users)]};;
    mret (jsonify (JDict [("users", JList (map user_json users));
                          ("count", JInt (len users))]))).

Definition get_orders : M response :=
  start_as_current_span "get_orders" (fun span =>
    set_attribute span "endpoint" (VStr "/api/orders");;
    set_attribute span "operation" (VStr "fetch_orders");;
    start_as_current_span "database_query" (fun db_span =>
      set_attribute db_span "db.system" (VStr "postgresql");;
      set_attribute db_span "db.operation" (VStr "SELECT");;
      set_attribute db_span "db.table" (VStr "orders");;
      delay ← random_uniform 0.02 0.08;
      time_sleep delay;;
      set_attribute db_span "db.query_time_ms" (VFloat (round2 (delay * 1000)));;
      add_event db_span "Orders fetched from database" ∅);;
    let total_value := total_of orders in
    set_attribute span "order.count" (VInt (len orders));;
    set_attribute span "order.total_value" (VFloat total_value);;
    add_event span "Orders retrieved successfully"
      (<["count" := VInt (len orders)]> {["total_value" := VFloat total_value]});;
    mret (jsonify (JDict [("orders", JList (map order_json orders));
                          ("count", JInt (len orders))]))).

Definition slow_endpoint : M response :=
  start_as_current_span "slow_operation" (fun span =>
    set_attribute span "endpoint" (VStr "/api/slow");;
    set_attribute span "operation" (VStr "slow_process");;
    delay ← random_uniform 0.5 2.0;
    set_attribute span "expected_delay_seconds" (VFloat delay);;
    add_event span "Starting slow operation" {["delay" := VFloat delay]};;
    start_as_current_span "step_1_processing" (fun step1 =>
      set_attribute step1 "step" (VInt 1);;
      time_sleep (delay * 0.3);;
      add_event step1 "Step 1 completed" ∅);;
    start_as_current_span "step_2_processing" (fun step2 =>
      set_attribute step2 "step" (VInt 2);;
      time_sleep (delay * 0.4);;
      add_event step2 "Step 2 completed" ∅);;
    start_as_current_span "step_3_processing" (fun step3 =>
      set_attribute step3 "step" (VInt 3);;
      time_sleep (delay * 0.3);;
      add_event step3 "Step 3 completed" ∅);;
    add_event span "Slow operation completed" ∅;;
    mret (jsonify (JDict [("message", JStr "Slow response completed");
                          ("delay_seconds", JFloat delay)]))).

Definition ValueError (msg : string) (frame : string) : exn :=
  Exn "ValueError" msg [frame].

(** The block of [error_endpoint] (lines 139-151), for its span. *)
Definition error_endpoint_block (span : nat) : M response :=
  set_attribute span "endpoint" (VStr "/api/error");;
  set_attribute span "operation" (VStr "risky_operation");;
  r ← random_random;
  if (r <? 0.5)%float then
    set_status span (mkStatus ERROR (Some "Random error occurred"));;
    set_attribute span "error" (VBool true);;
    add_event span "Error triggered" {["error_type" := VStr "ValueError"]};;
    raise (ValueError "Random error occurred!" "error_endpoint")
  else
    set_status span (mkStatus OK None);;
    add_event span "Operation completed without error" ∅;;
    mret (jsonify (JDict [("message", JStr "No error this time!")])).

Definition error_endpoint : M response :=
  start_as_current_span "error_operation" error_endpoint_block.

(** [@app.errorhandler(Exception)] *)
Definition handle_exception (e : exn) : M response :=
  current_span ← get_current_span;
  match current_span with
  | Some id =>
      record_exception id e;;
      set_status id (mkStatus ERROR (Some (str e)))
  | None => mret tt
  end;;
  mret (Response 500 (JDict [("error", JStr (str e))])).

(** ** Routing *)

Inductive route := Home | Health | ApiUsers | ApiOrders | ApiSlow | ApiError.

Definition routes : list route := [Home; Health; ApiUsers; ApiOrders; ApiSlow; ApiError].

(** The rule of each [@app.route]. *)
Definition path (r : route) : string :=
  match r with
  | Home => "/"
  | Health => "/health"
  | ApiUsers => "/api/users"
  | ApiOrders => "/api/orders"
  | ApiSlow => "/api/slow"
  | ApiError => "/api/error"
  end.

Definition view (r : route) : M response :=
  match r with
  | Home => home
  | Health => health
  | ApiUsers => get_users
  | ApiOrders => get_orders
  | ApiSlow => slow_endpoint
  | ApiError => error_endpoint
  end.

(** One request: the view function runs; an exception that leaves it is
    handed to the registered error handler, whose response is sent. *)
Definition serve (r : route) (w : world) : response * world :=
  match view r w with
  | (Return resp, w') => (resp, w')
  | (Raise e, w') =>
      match handle_exception e w' with
      | (Return resp, w'') => (resp, w'')
      | (Raise _, w'') => (Response 500 JNull, w'')
      end
  end.


(** ** Running a handler symbolically *)

Lemma alter_new {A} (f : A -> A) (l1 l2 : list A) (k : nat) :
  alter f (length l1 + k) (l1 ++ l2) = l1 ++ alter f k l2.
Proof. apply alter_app_r. Qed.

Lemma alter_new0 {A} (f : A -> A) (l1 l2 : list A) :
  alter f (length l1) (l1 ++ l2) = l1 ++ alter f 0 l2.
Proof. rewrite <- (Nat.add_0_r (length l1)) at 1. apply alter_app_r. Qed.

(** Unfolds the handlers, the tracer and the monad on a world whose
    fields are variables. *)
Ltac run :=
  cbv beta iota zeta delta
    [home health get_users get_orders slow_endpoint error_endpoint error_endpoint_block
     handle_exception
     start_as_current_span start_span end_span finally on_error modify raise
     get_current_span set_attribute add_event set_status record_exception
     time_time time_sleep random_random random_uniform
     mbind M_bind mret M_ret
     tick drawn with_spans with_current logged
     clock ticks rng draws spans current journal].

(** Brings the span store and the journal to the form [old ++ new]. *)
Ltac norm :=
  repeat first
    [ rewrite alter_new0
    | rewrite alter_new
    | rewrite <- app_assoc
    | rewrite length_app
    | progress cbn [alter list_alter length app Nat.add] ].

(** The world after a request that read the clock [k] times, drew [j]
    random values, created the spans [new] and performed [eff]. *)
Definition after (w : world) (k j : nat) (new : list span) (eff : list effect) : world :=
  World (clock w) (k + ticks w) (rng w) (j + draws w)
        (spans w ++ new) (current w) (journal w ++ eff).

(** The clock reading [k] readings after the request started. *)
Definition at_ (w : world) (k : nat) : float := clock w (k + ticks w).

Definition unset : Status := mkStatus UNSET None.

Definition home_response : response :=
  Response 200 (JDict
    [("message", JStr "Welcome to the traced web app!");
     ("endpoints", JList [JStr "/"; JStr "/health"; JStr "/api/users";
                          JStr "/api/orders"; JStr "/api/slow"])]).

Lemma home_run (w : world) :
  home w =
  (Return home_response,
   after w 3 0
     [Span "home_handler" (current w) (at_ w 0) (Some (at_ w 2)) unset
        (<["handler" := VStr "home"]> (<["endpoint" := VStr "/"]> ∅))
        [Event "Returning welcome message" (at_ w 1) ∅]]
     [SpanStarted (length (spans w)); SpanEnded (length (spans w))]).
Proof. destruct w. run. norm. reflexivity. Qed.

Lemma health_run (w : world) :
  health w =
  (Return (Response 200 (JDict [("status", JStr "healthy"); ("timestamp", JFloat (at_ w 2))])),
   after w 4 0
     [Span "health_check" (current w) (at_ w 0) (Some (at_ w 3)) unset
        (<["status" := VStr "healthy"]> (<["endpoint" := VStr "/health"]> ∅))
        [Event "Health check performed" (at_ w 1) ∅]]
     [SpanStarted (length (spans w)); SpanEnded (length (spans w))]).
Proof. destruct w. run. norm. reflexivity. Qed.

Definition db_span (table : string) (parent : nat) (delay t0 t1 t2 : float) (done : string) : span :=
  Span "database_query" (Some parent) t0 (Some t2) unset
    (<["db.query_time_ms" := VFloat (round2 (delay * 1000))]>
     (<["db.table" := VStr table]>
     (<["db.operation" := VStr "SELECT"]>
     (<["db.system" := VStr "postgresql"]> ∅))))
    [Event done t1 ∅].

Definition users_response : response :=
  Response 200 (JDict
    [("users", JList
       [JDict [("id", JInt 1); ("name", JStr "Alice"); ("email", JStr "alice@example.com")];
        JDict [("id", JInt 2); ("name", JStr "Bob"); ("email", JStr "bob@example.com")];
        JDict [("id", JInt 3); ("name", JStr "Charlie"); ("email", JStr "charlie@example.com")]]);
     ("count", JInt 3)]).

Lemma get_users_run (w : world) :
  let n := length (spans w) in
  let delay := (0.01 + (0.05 - 0.01) * rng w (draws w))%float in
  get_users w =
  (Return users_response,
   after w 6 1
     [Span "get_users" (current w) (at_ w 0) (Some (at_ w 5)) unset
        (<["user.count" := VInt 3]>
         (<["operation" := VStr "fetch_users"]>
         (<["endpoint" := VStr "/api/users"]> ∅)))
        [Event "Users retrieved successfully" (at_ w 4) {["count" := VInt 3]}];
      db_span "users" n delay (at_ w 1) (at_ w 2) (at_ w 3) "Users fetched from database"]
     [SpanStarted n; SpanStarted (n + 1); Slept delay; SpanEnded (n + 1); SpanEnded n]).
Proof. destruct w. run. norm. reflexivity. Qed.

Definition orders_response : response :=
  Response 200 (JDict
    [("orders", JList
       [JDict [("id", JInt 101); ("user_id", JInt 1); ("total", JFloat 99.99); ("status", JStr "shipped")];
        JDict [("id", JInt 102); ("user_id", JInt 2); ("total", JFloat 149.50); ("status", JStr "pending")];
        JDict [("id", JInt 103); ("user_id", JInt 1); ("total", JFloat 29.99); ("status", JStr "delivered")]]);
     ("count", JInt 3)]).

Lemma get_orders_run (w : world) :
  let n := length (spans w) in
  let delay := (0.02 + (0.08 - 0.02) * rng w (draws w))%float in
  get_orders w =
  (Return orders_response,
   after w 6 1
     [Span "get_orders" (current w) (at_ w 0) (Some (at_ w 5)) unset
        (<["order.total_value" := VFloat (total_of orders)]>
         (<["order.count" := VInt 3]>
         (<["operation" := VStr "fetch_orders"]>
         (<["endpoint" := VStr "/api/orders"]> ∅))))
        [Event "Orders retrieved successfully" (at_ w 4)
           (<["count" := VInt 3]> {["total_value" := VFloat (total_of orders)]})];
      db_span "orders" n delay (at_ w 1) (at_ w 2) (at_ w 3) "Orders fetched from database"]
     [SpanStarted n; SpanStarted (n + 1); Slept delay; SpanEnded (n + 1); SpanEnded n]).
Proof. destruct w. run. norm. reflexivity. Qed.

Definition step_span (k : Z) (name done : string) (parent : nat) (t0 t1 t2 : float) : span :=
  Span name (Some parent) t0 (Some t2) unset (<["step" := VInt k]> ∅) [Event done t1 ∅].

Lemma slow_endpoint_run (w : world) :
  let n := length (spans w) in
  let delay := (0.5 + (2.0 - 0.5) * rng w (draws w))%float in
  slow_endpoint w =
  (Return (Response 200 (JDict [("message", JStr "Slow response completed");
                                ("delay_seconds", JFloat delay)])),
   after w 13 1
     [Span "slow_operation" (current w) (at_ w 0) (Some (at_ w 12)) unset
        (<["expected_delay_seconds" := VFloat delay]>
         (<["operation" := VStr "slow_process"]>
         (<["endpoint" := VStr "/api/slow"]> ∅)))
        [Event "Starting slow operation" (at_ w 1) {["delay" := VFloat delay]};
         Event "Slow operation completed" (at_ w 11) ∅];
      step_span 1 "step_1_processing" "Step 1 completed" n (at_ w 2) (at_ w 3) (at_ w 4);
      step_span 2 "step_2_processing" "Step 2 completed" n (at_ w 5) (at_ w 6) (at_ w 7);
      step_span 3 "step_3_processing" "Step 3 completed" n (at_ w 8) (at_ w 9) (at_ w 10)]
     [SpanStarted n;
      SpanStarted (n + 1); Slept (delay * 0.3); SpanEnded (n + 1);
      SpanStarted (n + 2); Slept (delay * 0.4); SpanEnded (n + 2);
      SpanStarted (n + 3); Slept (delay * 0.3); SpanEnded (n + 3);
      SpanEnded n]).
Proof. destruct w. run. norm. reflexivity. Qed.

Definition random_error : exn := ValueError "Random error occurred!" "error_endpoint".

Lemma error_endpoint_raise (w : world) :
  (rng w (draws w) <? 0.5)%float = true ->
  error_endpoint w =
  (Raise random_error,
   after w 4 1
     [Span "error_operation" (current w) (at_ w 0) (Some (at_ w 3))
        (mkStatus ERROR (Some "ValueError: Random error occurred!"))
        (<["error" := VBool true]>
         (<["operation" := VStr "risky_operation"]>
         (<["endpoint" := VStr "/api/error"]> ∅)))
        [Event "Error triggered" (at_ w 1) {["error_type" := VStr "ValueError"]};
         Event "exception" (at_ w 2) (exception_payload random_error)]]
     [SpanStarted (length (spans w)); SpanEnded (length (spans w))]).
Proof. destruct w. run. intros ->. run. norm. reflexivity. Qed.

Lemma error_endpoint_return (w : world) :
  (rng w (draws w) <? 0.5)%float = false ->
  error_endpoint w =
  (Return (Response 200 (JDict [("message", JStr "No error this time!")])),
   after w 3 1
     [Span "error_operation" (current w) (at_ w 0) (Some (at_ w 2))
        (mkStatus OK None)
        (<["operation" := VStr "risky_operation"]>
         (<["endpoint" := VStr "/api/error"]> ∅))
        [Event "Operation completed without error" (at_ w 1) ∅]]
     [SpanStarted (length (spans w)); SpanEnded (length (spans w))]).
Proof. destruct w. run. intros ->. run. norm. reflexivity. Qed.

(** What the error handler does to the span it finds current. *)
Definition record_error (e : exn) (t : float) (s : span) : span :=
  set_span_status (mkStatus ERROR (Some (str e)))
    (add_span_event (Event "exception" t (exception_payload e)) s).

Definition error_response (e : exn) : response :=
  Response 500 (JDict [("error", JStr (str e))]).

Lemma handle_exception_run (e : exn) (w : world) :
  handle_exception e w =
  (Return (error_response e),
   match current w with
   | Some id =>
       World (clock w) (1 + ticks w) (rng w) (draws w)
             (alter (record_error e (at_ w 0)) id (spans w)) (current w) (journal w)
   | None => w
   end).
Proof.
  destruct w as [ck t rg d sp [id|] jn]; run; [|reflexivity].
  rewrite list_alter_alter_eq. reflexivity.
Qed.

Lemma serve_return (r : route) (w w' : world) (resp : response) :
  view r w = (Return resp, w') -> serve r w = (resp, w').
Proof. unfold serve. intros ->. reflexivity. Qed.

Lemma serve_raise (r : route) (w w' : world) (e : exn) :
  view r w = (Raise e, w') ->
  serve r w = (error_response e, snd (handle_exception e w')).
Proof. unfold serve. intros ->. rewrite handle_exception_run. reflexivity. Qed.

(** The draw that decides [/api/error]. *)
Definition fails (w : world) : bool := (rng w (draws w) <? 0.5)%float.

(** The view function of every route but [/api/error] returns. *)
Lemma view_returns (r : route) (w : world) :
  r <> ApiError -> exists resp k j new eff, view r w = (Return resp, after w k j new eff).
Proof.
  intros Hr. destruct r; try congruence; cbn [view].
  - rewrite home_run. eauto 6.
  - rewrite health_run. eauto 6.
  - rewrite get_users_run. eauto 6.
  - rewrite get_orders_run. eauto 6.
  - rewrite slow_endpoint_run. eauto 6.
Qed.

(** ** What a request leaves behind *)

(** The spans created while the request was served, in order of creation:
    the span with id [length (spans w) + k] is at position [k]. *)
Definition opened (r : route) (w : world) : list span :=
  drop (length (spans w)) (spans (snd (serve r w))).

(** The effects performed while the request was served. *)
Definition performed (r : route) (w : world) : list effect :=
  drop (length (journal w)) (journal (snd (serve r w))).

Definition is_end (id : nat) (e : effect) : bool :=
  match e with
  | SpanEnded j => Nat.eqb j id
  | _ => false
  end.

(** How often the span [id] is ended in a journal. *)
Definition times_ended (id : nat) (eff : list effect) : nat :=
  length (List.filter (is_end id) eff).

(** From the reading that the request starts with on, the clock does not
    go backwards. *)
Definition steady (w : world) : Prop :=
  forall i j, i <= j -> (clock w (i + ticks w) <=? clock w (j + ticks w))%float = true.

(** The current span of the context, if there is one, exists. *)
Definition current_valid (w : world) : Prop :=
  forall id, current w = Some id -> id < length (spans w).

Lemma opened_return (r : route) (w : world) resp k j new eff :
  view r w = (Return resp, after w k j new eff) ->
  serve r w = (resp, after w k j new eff) /\ opened r w = new /\ performed r w = eff.
Proof.
  intros H. unfold opened, performed. rewrite (serve_return _ _ _ _ H). cbn.
  rewrite !drop_app_length. auto.
Qed.

Lemma drop_alter_new {A} (f : A -> A) (old : list A) (x : A) (id : nat) :
  drop (length old) (alter f id (old ++ [x])) =
  if decide (id = length old) then [f x] else [x].
Proof.
  destruct (decide (id < length old)) as [Hlt|Hge].
  - rewrite alter_app_l by done. rewrite drop_app_length'
      by (now rewrite length_alter). case_decide; [lia | done].
  - rewrite alter_app_r_alt by lia. rewrite drop_app_length.
    case_decide as Heq.
    + subst id. rewrite Nat.sub_diag. reflexivity.
    + destruct (id - length old) as [|m] eqn:Hm; [lia | reflexivity].
Qed.

Lemma opened_raise (r : route) (w : world) e k j s0 eff :
  view r w = (Raise e, after w k j [s0] eff) ->
  fst (serve r w) = error_response e /\
  performed r w = eff /\
  opened r w =
    if decide (current w = Some (length (spans w)))
    then [record_error e (at_ w k) s0] else [s0].
Proof.
  intros H. unfold opened, performed. rewrite (serve_raise _ _ _ _ H).
  rewrite handle_exception_run. cbn.
  destruct (current w) as [id|]; cbn.
  - rewrite drop_app_length, drop_alter_new. repeat split.
    repeat case_decide; first [reflexivity | congruence].
  - rewrite !drop_app_length. repeat split.
Qed.

(** ** Worlds to run the handlers in *)

(** A clock that advances by one second per reading, starting at [1000]. *)
Definition ticking (n : nat) : float :=
  PrimFloat.of_uint63 (Uint63.of_Z (1000 + Z.of_nat (Nat.min n 64))).

(** A clock that is set back by one second before every reading. *)
Definition set_back (n : nat) : float :=
  PrimFloat.of_uint63 (Uint63.of_Z (1000 - Z.of_nat (Nat.min n 64))).

(** The span of the request itself, as an instrumented server would have
    opened it before the view function is called. *)
Definition server_span : span := new_span "GET" None 999.

(** No span is active; the generator yields [0.25], then [0.75], ... *)
Definition bare (first : float) : world :=
  World ticking 0 (fun n => if Nat.even n then first else (1 - first)%float) 0 [] None [].

(** The server span is active. *)
Definition instrumented (first : float) : world :=
  World ticking 0 (fun n => if Nat.even n then first else (1 - first)%float) 0
        [server_span] (Some 0) [SpanStarted 0].

(** ** The error-testing route *)

(** The block of /api/error up to its [raise], in the world in which the
    block is entered. *)
Lemma error_endpoint_block_raise (w : world) :
  (rng w (draws w) <? 0.5)%float = true ->
  error_endpoint_block (length (spans w)) (snd (start_span "error_operation" w)) =
  (Raise random_error,
   World (clock w) (2 + ticks w) (rng w) (1 + draws w)
     (spans w ++
      [Span "error_operation" (current w) (at_ w 0) None
         (mkStatus ERROR (Some "Random error occurred"))
         (<["error" := VBool true]>
          (<["operation" := VStr "risky_operation"]>
          (<["endpoint" := VStr "/api/error"]> ∅)))
         [Event "Error triggered" (at_ w 1) {["error_type" := VStr "ValueError"]}]])
     (Some (length (spans w)))
     (journal w ++ [SpanStarted (length (spans w))])).
Proof. destruct w. unfold start_span. cbn [snd]. run. intros ->. run. norm. reflexivity. Qed.

(** C1. A request to /api/error whose draw is below 0.5 sets the status of
    its span to Error, emits the event "Error triggered" and raises; the
    span is then closed with the exception recorded on it, and the
    response is the 500 envelope with "Random error occurred!".  Any other
    draw sets the status Ok, emits the success event and returns 200 with
    "No error this time!".  The handler raises exactly when the draw is
    below 0.5. *)
Theorem error_endpoint_outcome (w : world) :
  (if fails w then
     (exists w0 s0,
        error_endpoint_block (length (spans w)) (snd (start_span "error_operation" w)) =
          (Raise (ValueError "Random error occurred!" "error_endpoint"), w0) /\
        spans w0 !! length (spans w) = Some s0 /\
        status s0 = mkStatus ERROR (Some "Random error occurred") /\
        (exists t, events s0 =
           [Event "Error triggered" t {["error_type" := VStr "ValueError"]}])) /\
     exists w1 s,
       error_endpoint w = (Raise (ValueError "Random error occurred!" "error_endpoint"), w1) /\
       spans w1 !! length (spans w) = Some s /\
       span_name s = "error_operation" /\
       status s = mkStatus ERROR (Some "ValueError: Random error occurred!") /\
       (exists t t', events s =
          [Event "Error triggered" t {["error_type" := VStr "ValueError"]};
           Event "exception" t'
             (exception_payload (ValueError "Random error occurred!" "error_endpoint"))]) /\
       is_Some (end_time s) /\
       fst (serve ApiError w) =
         Response 500 (JDict [("error", JStr "Random error occurred!")])
   else
     exists w1 s,
       error_endpoint w =
         (Return (Response 200 (JDict [("message", JStr "No error this time!")])), w1) /\
       spans w1 !! length (spans w) = Some s /\
       span_name s = "error_operation" /\
       status s = mkStatus OK None /\
       (exists t, events s = [Event "Operation completed without error" t ∅]) /\
       serve ApiError w =
         (Response 200 (JDict [("message", JStr "No error this time!")]), w1)) /\
  ((exists e w1, error_endpoint w = (Raise e, w1)) <-> fails w = true).
Proof.
  unfold fails. destruct (rng w (draws w) <? 0.5)%float eqn:Hdraw.
  - pose proof (error_endpoint_raise w Hdraw) as Hrun. split.
    + split.
      * eexists _, _. split; [exact (error_endpoint_block_raise w Hdraw)|]. cbn [spans].
        split; [apply list_lookup_middle; reflexivity|].
        split; [reflexivity|]. eexists. reflexivity.
      * eexists _, _. split; [exact Hrun|]. cbn [after spans].
        split; [apply list_lookup_middle; reflexivity|].
        split; [reflexivity|]. split; [reflexivity|].
        split; [eexists _, _; reflexivity|]. split; [eexists; reflexivity|].
        apply (opened_raise ApiError) in Hrun. tauto.
    + split; eauto.
  - pose proof (error_endpoint_return w Hdraw) as Hrun. split.
    + eexists _, _. split; [exact Hrun|]. cbn [after spans].
      split; [apply list_lookup_middle; reflexivity|].
      repeat split; eauto.
      apply (serve_return ApiError). exact Hrun.
    + split; [|discriminate]. intros (e & w1 & H). rewrite Hrun in H. discriminate.
Qed.

(** ** The global error handler *)

(** C3. Whenever a view function raises, the error handler records the
    exception as an event on the span that is current at that moment and
    sets the status of that span to Error with the message of the
    exception (without a current span nothing is recorded), and the
    response is [{error: <message>}] with status 500. *)
Theorem uncaught_error_recovered (r : route) (w w1 : world) (e : exn) :
  view r w = (Raise e, w1) ->
  fst (serve r w) = Response 500 (JDict [("error", JStr (str e))]) /\
  (forall id s, current w1 = Some id -> spans w1 !! id = Some s ->
     spans (snd (serve r w)) !! id =
       Some (Span (span_name s) (span_parent s) (start_time s) (end_time s)
                  (mkStatus ERROR (Some (str e)))
                  (attributes s)
                  (events s ++ [Event "exception" (clock w1 (ticks w1)) (exception_payload e)]))) /\
  (current w1 = None -> spans (snd (serve r w)) = spans w1).
Proof.
  intros Hraise. rewrite (serve_raise _ _ _ _ Hraise), handle_exception_run.
  cbn [fst snd]. split; [reflexivity|]. split.
  - intros id s Hcur Hs. rewrite Hcur. cbn [spans].
    rewrite list_lookup_alter_eq, Hs. reflexivity.
  - intros ->. reflexivity.
Qed.

Lemma uncaught_error_recovered_witness :
  fst (serve ApiError (instrumented 0.25)) =
    Response 500 (JDict [("error", JStr "Random error occurred!")]) /\
  exists s, spans (snd (serve ApiError (instrumented 0.25))) !! 0 = Some s /\
            span_name s = "GET" /\
            status s = mkStatus ERROR (Some "Random error occurred!").
Proof.
  destruct (uncaught_error_recovered ApiError (instrumented 0.25)
              (snd (error_endpoint (instrumented 0.25))) random_error)
    as (Hresp & Hspan & _).
  - vm_compute. reflexivity.
  - split; [exact Hresp|]. eexists. split.
    + apply (Hspan 0 server_span); vm_compute; reflexivity.
    + split; reflexivity.
Defined.

(** On a failing request the span of /api/error does not end with the
    message of the exception, "Random error occurred!", that the error
    handler sets: leaving the block has replaced the message of the handler
    by "ValueError: Random error occurred!", and the status of the error
    handler is on the span of the server. *)
Lemma final_message_from_block_exit :
  fails (instrumented 0.25) = true /\
  exists s g,
    spans (snd (serve ApiError (instrumented 0.25))) !! 1 = Some s /\
    span_name s = "error_operation" /\
    description (status s) = Some "ValueError: Random error occurred!" /\
    description (status s) <> Some "Random error occurred!" /\
    spans (snd (serve ApiError (instrumented 0.25))) !! 0 = Some g /\
    span_name g = "GET" /\
    description (status g) = Some "Random error occurred!".
Proof.
  split; [reflexivity|]. eexists _, _. split; [vm_compute; reflexivity|].
  split; [reflexivity|]. split; [reflexivity|]. split; [discriminate|].
  split; [vm_compute; reflexivity|]. split; reflexivity.
Qed.

(** C10, as the code has it. On a failing request to /api/error the handler
    sets the status of its span to Error with "Random error occurred".
    When the exception leaves the block of the span, this message is
    overwritten with "ValueError: Random error occurred!", the exception is
    recorded on the span, the span is closed and the previous current span
    restored.  The error handler runs after that: its status, Error with
    "Random error occurred!", goes to the span that was current when the
    request started (if there is one that is still open and not Ok), so
    the span of /api/error ends with "ValueError: Random error occurred!". *)
Theorem error_status_overwritten_on_exit (w : world) :
  fails w = true ->
  current_valid w ->
  (exists w0 s0,
     error_endpoint_block (length (spans w)) (snd (start_span "error_operation" w)) =
       (Raise (ValueError "Random error occurred!" "error_endpoint"), w0) /\
     spans w0 !! length (spans w) = Some s0 /\
     status s0 = mkStatus ERROR (Some "Random error occurred") /\
     end_time s0 = None) /\
  (exists s, spans (snd (serve ApiError w)) !! length (spans w) = Some s /\
             span_name s = "error_operation" /\
             status s = mkStatus ERROR (Some "ValueError: Random error occurred!") /\
             (exists ev, last (events s) = Some ev /\ ev_name ev = "exception") /\
             is_Some (end_time s)) /\
  (forall id s, current w = Some id -> spans w !! id = Some s ->
     end_time s = None -> status_code (status s) <> OK ->
     exists s', spans (snd (serve ApiError w)) !! id = Some s' /\
                span_name s' = span_name s /\
                status s' = mkStatus ERROR (Some "Random error occurred!")) /\
  current (snd (serve ApiError w)) = current w.
Proof.
  intros Hfail Hvalid. pose proof (error_endpoint_raise w Hfail) as Hrun.
  split.
  { eexists _, _. split; [exact (error_endpoint_block_raise w Hfail)|]. cbn [spans].
    split; [apply list_lookup_middle; reflexivity|]. split; reflexivity. }
  rewrite (serve_raise ApiError _ _ _ Hrun), handle_exception_run.
  cbn [snd after current spans].
  destruct (current w) as [cur|] eqn:Hcur; cbn [spans current].
  - pose proof (Hvalid cur Hcur) as Hlt. repeat split.
    + eexists. split.
      * rewrite list_lookup_alter_ne by lia. apply list_lookup_middle. reflexivity.
      * split; [reflexivity|]. split; [reflexivity|].
        split; [eexists; split; reflexivity|]. eexists; reflexivity.
    + intros id s [= <-] Hs _ _. eexists. split.
      * rewrite list_lookup_alter_eq, lookup_app_l, Hs by done. reflexivity.
      * split; reflexivity.
  - repeat split.
    + eexists. split; [apply list_lookup_middle; reflexivity|].
      split; [reflexivity|]. split; [reflexivity|].
      split; [eexists; split; reflexivity|]. eexists; reflexivity.
    + discriminate.
    + exact Hcur.
Qed.

Lemma error_status_overwritten_on_exit_witness :
  exists s s',
    spans (snd (serve ApiError (instrumented 0.25))) !! 1 = Some s /\
    status s = mkStatus ERROR (Some "ValueError: Random error occurred!") /\
    spans (snd (serve ApiError (instrumented 0.25))) !! 0 = Some s' /\
    status s' = mkStatus ERROR (Some "Random error occurred!").
Proof.
  destruct (error_status_overwritten_on_exit (instrumented 0.25))
    as (_ & (s & Hs & _ & Hst & _) & Hcur & _).
  - reflexivity.
  - intros id [= <-]. cbn. lia.
  - destruct (Hcur 0 server_span eq_refl eq_refl eq_refl) as (s' & Hs' & _ & Hst').
    + discriminate.
    + exists s, s'. auto.
Defined.

(** ** Status of the spans *)

(** Case analysis on the position of a span in an explicit list. *)
Ltac pick H :=
  repeat lazymatch type of H with
    | (_ :: _) !! ?k = Some _ => destruct k as [|k]; cbn [lookup list_lookup] in H; [injection H as <-|]
    | [] !! _ = Some _ => discriminate H
    end.

(** C4. A span opened by home, health, get_users, get_orders or
    slow_endpoint, none of which calls set_status, is closed on the normal
    return of the handler with status Unset; a span ends with status Ok
    only on the branch of /api/error that sets it. *)
Theorem status_unset_unless_set (r : route) (w : world) (k : nat) (s : span) :
  opened r w !! k = Some s ->
  (r <> ApiError ->
     status s = mkStatus UNSET None /\ is_Some (end_time s) /\
     exists resp, view r w = (Return resp, snd (serve r w))) /\
  (status_code (status s) = OK <-> r = ApiError /\ fails w = false).
Proof.
  assert (Hunset : forall r' (w' : world) resp name parent t0 t1 attrs evs,
            r' <> ApiError -> view r' w = (Return resp, w') -> serve r' w = (resp, w') ->
            let s' := Span name parent t0 (Some t1) unset attrs evs in
            (r' <> ApiError ->
               status s' = mkStatus UNSET None /\ is_Some (end_time s') /\
               exists resp, view r' w = (Return resp, snd (serve r' w))) /\
            (status_code (status s') = OK <-> r' = ApiError /\ fails w = false)).
  { intros r' w' resp name parent t0 t1 attrs evs Hr Hview Hserve. cbn. split.
    - intros _. split; [reflexivity|]. split; [eexists; reflexivity|].
      exists resp. rewrite Hserve. exact Hview.
    - split; [discriminate | intros [? _]; contradiction]. }
  intros Hs. destruct r.
  - destruct (opened_return Home w _ _ _ _ _ (home_run w)) as (Hserve & Hopen & _).
    rewrite Hopen in Hs. pick Hs.
    eapply Hunset; [discriminate | apply home_run | exact Hserve].
  - destruct (opened_return Health w _ _ _ _ _ (health_run w)) as (Hserve & Hopen & _).
    rewrite Hopen in Hs. pick Hs.
    eapply Hunset; [discriminate | apply health_run | exact Hserve].
  - destruct (opened_return ApiUsers w _ _ _ _ _ (get_users_run w)) as (Hserve & Hopen & _).
    rewrite Hopen in Hs. pick Hs.
    all: eapply Hunset; [discriminate | apply get_users_run | exact Hserve].
  - destruct (opened_return ApiOrders w _ _ _ _ _ (get_orders_run w)) as (Hserve & Hopen & _).
    rewrite Hopen in Hs. pick Hs.
    all: eapply Hunset; [discriminate | apply get_orders_run | exact Hserve].
  - destruct (opened_return ApiSlow w _ _ _ _ _ (slow_endpoint_run w)) as (Hserve & Hopen & _).
    rewrite Hopen in Hs. pick Hs.
    all: eapply Hunset; [discriminate | apply slow_endpoint_run | exact Hserve].
  - split; [congruence|]. destruct (fails w) eqn:Hdraw.
    + destruct (opened_raise ApiError w _ _ _ _ _ (error_endpoint_raise w Hdraw))
        as (_ & _ & Hopen).
      rewrite Hopen in Hs. case_decide; pick Hs.
      all: cbn [status status_code record_error set_span_status].
      all: split; [intros [=] | intros [_ [=]]].
    + destruct (opened_return ApiError w _ _ _ _ _ (error_endpoint_return w Hdraw))
        as (_ & Hopen & _).
      rewrite Hopen in Hs. pick Hs. cbn [status status_code]. split; auto.
Qed.

Lemma status_unset_unless_set_witness :
  exists s, opened ApiSlow (instrumented 0.25) !! 2 = Some s /\
            span_name s = "step_2_processing" /\
            status s = mkStatus UNSET None /\ is_Some (end_time s).
Proof.
  assert (Hs : opened ApiSlow (instrumented 0.25) !! 2 =
               Some (step_span 2 "step_2_processing" "Step 2 completed" 1
                       (ticking 5) (ticking 6) (ticking 7)))
    by (vm_compute; reflexivity).
  eexists. split; [exact Hs|]. split; [reflexivity|].
  destruct (status_unset_unless_set ApiSlow (instrumented 0.25) 2 _ Hs) as [Hunset _].
  destruct Hunset as (Hst & Hend & _); [intros [=]|]. auto.
Defined.

(** ** Rounding of binary64 operations *)

Section Shift.

(** [iter_pos] is plain iteration. *)
Lemma iter_pos_nat {A} (f : A -> A) (p : positive) (x : A) :
  SpecFloat.iter_pos f p x = Nat.iter (Pos.to_nat p) f x.
Proof.
  revert x. induction p as [p IH|p IH|]; intros x; cbn [SpecFloat.iter_pos].
  - rewrite !IH, Pos2Nat.inj_xI.
    replace (S (2 * Pos.to_nat p)) with (Pos.to_nat p + Pos.to_nat p + 1)%nat by lia.
    rewrite !Nat.iter_add. reflexivity.
  - rewrite !IH, Pos2Nat.inj_xO.
    replace (2 * Pos.to_nat p)%nat with (Pos.to_nat p + Pos.to_nat p)%nat by lia.
    now rewrite Nat.iter_add.
  - reflexivity.
Qed.

(** One step of the shift: halve the mantissa, remember the bit that fell
    off and whether anything but zeros fell off before. *)
Lemma shr_1_spec (m : Z) (r s : bool) :
  (0 <= m)%Z ->
  shr_1 (Build_shr_record m r s) = Build_shr_record (m / 2) (Z.odd m) (r || s).
Proof.
  intros Hm. destruct m as [|[p|p|]|p]; try lia; cbn [shr_1].
  - reflexivity.
  - f_equal. apply Z.div_unique with 1%Z; lia.
  - f_equal. apply Z.div_unique with 0%Z; lia.
  - reflexivity.
Qed.

(** After [n >= 1] steps the record holds the quotient by [2^n], the
    half bit and the sticky bit of the remainder. *)
Lemma shr_iter (m : Z) (n : nat) :
  (0 <= m)%Z ->
  Nat.iter (S n) shr_1 (Build_shr_record m false false) =
  Build_shr_record (m / 2 ^ Z.of_nat (S n))
                   (2 ^ Z.of_nat n <=? m mod 2 ^ Z.of_nat (S n))%Z
                   (negb (m mod 2 ^ Z.of_nat n =? 0)%Z).
Proof.
  intros Hm. induction n as [|n IH].
  - cbn [Nat.iter]. rewrite shr_1_spec by exact Hm. change (2 ^ Z.of_nat 1)%Z with 2%Z.
    change (2 ^ Z.of_nat 0)%Z with 1%Z. rewrite Z.mod_1_r. f_equal.
    rewrite Zodd_mod. destruct (Z.mod_pos_bound m 2 ltac:(lia)).
    destruct (Z.eqb_spec (m mod 2) 1); destruct (Z.leb_spec 1 (m mod 2)); lia.
  - rewrite Nat.iter_succ, IH.
    assert (Hpow : forall k : nat, (0 < 2 ^ Z.of_nat k)%Z) by (intros; apply Z.pow_pos_nonneg; lia).
    rewrite shr_1_spec by (apply Z.div_pos; [lia | apply Hpow]).
    assert (H2 : forall k : nat, (2 ^ Z.of_nat (S k) = 2 * 2 ^ Z.of_nat k)%Z).
    { intros k. rewrite Nat2Z.inj_succ, Z.pow_succ_r by lia. reflexivity. }
    set (N := (2 ^ Z.of_nat n)%Z) in *.
    pose proof (Hpow n) as HN. fold N in HN.
    rewrite (H2 (S n)), (H2 n). fold N.
    set (q := (m / (2 * N))%Z). set (t := (m mod (2 * N))%Z).
    assert (Hdm : (m = 2 * N * q + t)%Z) by (apply Z.div_mod; lia).
    assert (Ht : (0 <= t < 2 * N)%Z) by (apply Z.mod_pos_bound; lia).
    assert (Hq2 : (m / (2 * (2 * N)) = q / 2)%Z).
    { unfold q. rewrite Z.div_div by lia. f_equal. lia. }
    assert (Hmod4 : (m mod (2 * (2 * N)) = 2 * N * (q mod 2) + t)%Z).
    { symmetry. apply Z.mod_unique_pos with (q := (q / 2)%Z).
      - destruct (Z.mod_pos_bound q 2 ltac:(lia)). nia.
      - pose proof (Z.div_mod q 2 ltac:(lia)). nia. }
    assert (Hmodn : (m mod N = t mod N)%Z).
    { rewrite Hdm. rewrite <- Zplus_mod_idemp_l.
      replace (2 * N * q)%Z with (2 * q * N)%Z by lia. rewrite Z.mod_mul by lia.
      reflexivity. }
    rewrite Hq2, Hmod4. f_equal.
    + rewrite Zodd_mod. destruct (Z.mod_pos_bound q 2 ltac:(lia)).
      destruct (Z.eqb_spec (q mod 2) 1);
        destruct (Z.leb_spec (2 * N) (2 * N * (q mod 2) + t)); nia.
    + rewrite Hmodn. destruct (Z.leb_spec N t) as [Hle|Hlt].
      * destruct (Z.eqb_spec t 0); [lia|]. now rewrite orb_true_l.
      * rewrite Z.mod_small by lia. now rewrite orb_false_l.
Qed.

End Shift.

Section Rounding.

Local Open Scope Z_scope.

Lemma shr_exact (m e n : Z) :
  0 <= m -> 0 < n ->
  shr (Build_shr_record m false false) e n =
  (Build_shr_record (m / 2 ^ n) (2 ^ (n - 1) <=? m mod 2 ^ n)
                    (negb (m mod 2 ^ (n - 1) =? 0)),
   e + n).
Proof.
  intros Hm Hn. destruct n as [|p|p]; try lia. cbn [shr].
  rewrite iter_pos_nat. destruct (Pos2Nat.is_succ p) as [k Hk]. rewrite Hk.
  rewrite shr_iter by exact Hm.
  replace (Z.of_nat (S k)) with (Z.pos p) by lia.
  replace (Z.of_nat k) with (Z.pos p - 1) by lia. reflexivity.
Qed.

(** The mantissa [m], cut by [k] bits and rounded to nearest, ties to even. *)
Definition rne (m k : Z) : Z :=
  if k <=? 0 then m
  else round_nearest_even (m / 2 ^ k)
         (loc_of_shr_record
            (Build_shr_record (m / 2 ^ k) (2 ^ (k - 1) <=? m mod 2 ^ k)
                              (negb (m mod 2 ^ (k - 1) =? 0)))).

(** What rounding to nearest guarantees: the result does not cross a
    multiple of [2^k], and it is at most half a unit away. *)
Definition nearest (m k mt : Z) : Prop :=
  (forall b, m <= b * 2 ^ k -> mt <= b) /\
  (forall b, b * 2 ^ k <= m -> b <= mt) /\
  2 * (mt * 2 ^ k) <= 2 * m + 2 ^ k /\
  2 * m <= 2 * (mt * 2 ^ k) + 2 ^ k.

Lemma rne_nearest (m k : Z) : 0 <= m -> 0 <= k -> nearest m k (rne m k).
Proof.
  intros Hm Hk. unfold rne, nearest. destruct (Z.leb_spec k 0) as [Hk0|Hk0].
  - replace k with 0 by lia. rewrite Z.pow_0_r. repeat split; intros; lia.
  - set (H := 2 ^ (k - 1)). set (N := 2 ^ k).
    assert (HH : 0 < H) by (apply Z.pow_pos_nonneg; lia).
    assert (HN : N = 2 * H).
    { unfold N, H. rewrite <- Z.pow_succ_r by lia. f_equal. lia. }
    set (q := m / N). set (t := m mod N).
    assert (Hdm : m = N * q + t) by (apply Z.div_mod; lia).
    assert (Ht : 0 <= t < N) by (apply Z.mod_pos_bound; lia).
    assert (Hmod : m mod H = t mod H).
    { rewrite Hdm, HN. rewrite <- Zplus_mod_idemp_l.
      replace (2 * H * q) with (2 * q * H) by lia. now rewrite Z.mod_mul by lia. }
    rewrite Hmod.
    assert (Hq : 0 <= q) by (apply Z.div_pos; lia).
    assert (Hcases : (t = 0 /\ (H <=? t) = false /\ (t mod H =? 0) = true) \/
                     (0 < t < H /\ (H <=? t) = false /\ (t mod H =? 0) = false) \/
                     (t = H /\ (H <=? t) = true /\ (t mod H =? 0) = true) \/
                     (H < t /\ (H <=? t) = true /\ (t mod H =? 0) = false)).
    { destruct (Z.leb_spec H t) as [Hle|Hlt].
      - destruct (Z.eqb_spec t H) as [->|Hne].
        + right; right; left. rewrite Z.mod_same by lia. auto.
        + right; right; right. split; [lia|]. split; [reflexivity|].
          apply Z.eqb_neq. intros H0.
          assert (t mod H = t - H).
          { symmetry. apply Z.mod_unique_pos with 1; lia. }
          lia.
      - rewrite Z.mod_small by lia. destruct (Z.eqb_spec t 0); [left | right; left]; auto.
        split; [lia | auto]. }
    destruct Hcases as [(H0 & -> & ->)|[(H0 & -> & ->)|[(H0 & -> & ->)|(H0 & -> & ->)]]];
      cbn [negb loc_of_shr_record round_nearest_even].
    + repeat split; intros; nia.
    + repeat split; intros; nia.
    + destruct (Z.even q); repeat split; intros; nia.
    + repeat split; intros; nia.
Qed.

Lemma rne_bound (m k x : Z) :
  0 <= m -> 0 <= k -> 0 <= x -> m < 2 ^ (k + x) -> 0 <= rne m k <= 2 ^ x.
Proof.
  intros Hm Hk Hx Hlt. destruct (rne_nearest m k Hm Hk) as (Hup & Hlow & _).
  split.
  - apply (Hlow 0). lia.
  - apply Hup. rewrite Z.pow_add_r in Hlt by lia. lia.
Qed.

End Rounding.

Section Binary64.

Local Open Scope Z_scope.

Lemma fexp_eq (e : Z) : fexp prec emax e = Z.max (e - 53) (-1074).
Proof. reflexivity. Qed.

Lemma digits2_size (p : positive) : digits2_pos p = Pos.size p.
Proof. induction p; cbn; congruence. Qed.

Lemma digits_bounds (m : positive) :
  2 ^ (Z.pos (digits2_pos m) - 1) <= Z.pos m < 2 ^ Z.pos (digits2_pos m).
Proof.
  rewrite digits2_size. split.
  - pose proof (Pos.size_le m) as H.
    apply Pos2Z.pos_le_pos in H. rewrite Pos2Z.inj_pow in H.
    change (Z.pos m~0) with (2 * Z.pos m) in H.
    replace (Z.pos (Pos.size m)) with (Z.succ (Z.pos (Pos.size m) - 1)) in H by lia.
    rewrite Z.pow_succ_r in H by lia. lia.
  - pose proof (Pos.size_gt m) as H.
    apply Pos2Z.pos_lt_pos in H. now rewrite Pos2Z.inj_pow in H.
Qed.

Lemma Zdigits2_le (z k : Z) : 0 <= z < 2 ^ k -> 0 <= k -> Zdigits2 z <= k.
Proof.
  intros [Hz Hlt] Hk. destruct z as [|p|p]; cbn [Zdigits2]; try lia.
  destruct (digits_bounds p) as [Hlow _].
  assert (2 ^ (Z.pos (digits2_pos p) - 1) < 2 ^ k) by lia.
  apply Z.pow_lt_mono_r_iff in H; lia.
Qed.

(** Rounding an exact positive mantissa that has at least 53 bits, or sits
    on the subnormal exponent: the result is the mantissa rounded to
    nearest at the exponent [fexp] gives, renormalised when the rounding
    carried into a 54th bit. *)
Lemma binary_round_aux_exact (sx : bool) (M : positive) (E : Z) :
  let g := fexp prec emax (Z.pos (digits2_pos M) + E) in
  let mt := rne (Z.pos M) (g - E) in
  E <= g -> Z.pos (digits2_pos M) + E <= 1023 ->
  match binary_round_aux prec emax sx (Z.pos M) E loc_Exact with
  | S754_zero s => s = sx /\ mt = 0
  | S754_finite s m e =>
      s = sx /\ ((e = g /\ Z.pos m = mt) \/ (e = g + 1 /\ 2 * Z.pos m = mt))
  | _ => False
  end.
Proof.
  intros g mt HEg HD. pose proof (digits_bounds M) as [HMlow HMup].
  assert (Hg : g = Z.max (Z.pos (digits2_pos M) + E - 53) (-1074)) by apply fexp_eq.
  assert (Hmt : 0 <= mt <= 2 ^ 53).
  { apply rne_bound; try lia.
    apply Z.lt_le_trans with (1 := HMup). apply Z.pow_le_mono_r; lia. }
  assert (Hn2 : forall d, fexp prec emax (d + g) - g = Z.max (d - 53) (-1074 - g)).
  { intros d. rewrite fexp_eq. lia. }
  assert (Hfirst : shr_fexp prec emax (Z.pos M) E loc_Exact =
                   (if g - E <=? 0 then Build_shr_record (Z.pos M) false false
                    else Build_shr_record (Z.pos M / 2 ^ (g - E))
                           (2 ^ (g - E - 1) <=? Z.pos M mod 2 ^ (g - E))
                           (negb (Z.pos M mod 2 ^ (g - E - 1) =? 0)),
                    g)).
  { unfold shr_fexp. cbn [Zdigits2 shr_record_of_loc]. fold g.
    destruct (Z.leb_spec (g - E) 0) as [Hle|Hgt].
    - replace (g - E) with 0 by lia. cbn [shr]. f_equal. lia.
    - rewrite shr_exact by lia. f_equal. lia. }
  assert (Hround : round_nearest_even
                     (shr_m (fst (shr_fexp prec emax (Z.pos M) E loc_Exact)))
                     (loc_of_shr_record (fst (shr_fexp prec emax (Z.pos M) E loc_Exact))) = mt).
  { rewrite Hfirst. cbn [fst]. unfold mt, rne.
    destruct (g - E <=? 0); reflexivity. }
  unfold binary_round_aux.
  destruct (shr_fexp prec emax (Z.pos M) E loc_Exact) as [mrs' e'] eqn:Hshr.
  cbn [fst] in Hround. rewrite Hround.
  injection Hfirst as _ ->.
  unfold shr_fexp. cbn [shr_record_of_loc]. rewrite Hn2.
  destruct (Z.eq_dec mt (2 ^ 53)) as [Htop|Htop].
  - rewrite Htop. change (Zdigits2 (2 ^ 53)) with 54.
    replace (Z.max (54 - 53) (-1074 - g)) with 1 by lia.
    cbn [shr SpecFloat.iter_pos shr_1 shr_m].
    change (2 ^ 53) with 9007199254740992. cbn [shr_1 shr_m].
    destruct (Z.leb_spec (g + 1) (emax - prec)) as [_|Hover];
      [|change (emax - prec) with 971 in Hover; lia].
    split; [reflexivity|]. right. split; [reflexivity|]. reflexivity.
  - assert (Hd : Zdigits2 mt <= 53) by (apply Zdigits2_le; lia).
    assert (Hnoshift : shr (Build_shr_record mt false false) g
                         (Z.max (Zdigits2 mt - 53) (-1074 - g)) =
                       (Build_shr_record mt false false, g)).
    { destruct (Z.max (Zdigits2 mt - 53) (-1074 - g)) eqn:Hmax; try reflexivity. lia. }
    rewrite Hnoshift. cbn [shr_m].
    destruct mt as [|p|p]; try lia.
    + auto.
    + destruct (Z.leb_spec g (emax - prec)) as [_|Hover];
        [|change (emax - prec) with 971 in Hover; lia].
      split; [reflexivity|]. left. split; reflexivity.
Qed.

End Binary64.

(** *** Values as rational numbers *)

Section Values.

Local Open Scope Q_scope.

Definition pow2 (e : Z) : Q := 2 ^ e.

(** The value of a float as a rational number; zero for infinities and NaN. *)
Definition SF2Q (x : spec_float) : Q :=
  match x with
  | S754_finite s m e => (if s then -1 else 1) * inject_Z (Z.pos m) * pow2 e
  | _ => 0
  end.

Definition val (x : float) : Q := SF2Q (Prim2SF x).

Lemma pow2_pos (e : Z) : 0 < pow2 e.
Proof. apply Qpower_0_lt. reflexivity. Qed.

Lemma pow2_add (a b : Z) : pow2 (a + b) == pow2 a * pow2 b.
Proof. apply Qpower_plus. discriminate. Qed.

Lemma pow2_le (a b : Z) : (a <= b)%Z -> pow2 a <= pow2 b.
Proof. intros H. apply Qpower_le_compat_l; [exact H | discriminate]. Qed.

Lemma pow2_lt (a b : Z) : (a < b)%Z -> pow2 a < pow2 b.
Proof. intros H. apply Qpower_lt_compat_l; [exact H | reflexivity]. Qed.

Lemma pow2_lt_inv (a b : Z) : pow2 a < pow2 b -> (a < b)%Z.
Proof. intros H. apply Qpower_lt_compat_l_inv with (q := 2); [exact H | reflexivity]. Qed.

Lemma pow2_Z (n : Z) : (0 <= n)%Z -> inject_Z (2 ^ n) == pow2 n.
Proof. apply Zpower_Qpower. Qed.

(** [a * 2^(k+e)] is [(a * 2^k) * 2^e] for a non-negative [k]. *)
Lemma scale_pow2 (a k e : Z) :
  (0 <= k)%Z -> inject_Z (a * 2 ^ k) * pow2 e == inject_Z a * pow2 (k + e).
Proof.
  intros Hk. rewrite inject_Z_mult. rewrite (pow2_Z k Hk), (pow2_add k e). ring.
Qed.

Lemma pow2_scaled (k e : Z) : (0 <= k)%Z -> pow2 (k + e) == inject_Z (2 ^ k) * pow2 e.
Proof. intros Hk. rewrite (pow2_Z k Hk). apply pow2_add. Qed.

Lemma scaled_le (a b e : Z) : inject_Z a * pow2 e <= inject_Z b * pow2 e <-> (a <= b)%Z.
Proof. rewrite Qmult_le_r by apply pow2_pos. now rewrite <- Zle_Qle. Qed.

Lemma scaled_lt (a b e : Z) : inject_Z a * pow2 e < inject_Z b * pow2 e <-> (a < b)%Z.
Proof. rewrite Qmult_lt_r by apply pow2_pos. now rewrite <- Zlt_Qlt. Qed.

(** [V] is [p] rounded to nearest on the grid of multiples of [2^g]. *)
Definition rounded_on (g : Z) (p V : Q) : Prop :=
  (exists mt : Z, (0 <= mt)%Z /\ V == inject_Z mt * pow2 g) /\
  (forall b : Z, p <= inject_Z b * pow2 g -> V <= inject_Z b * pow2 g) /\
  (forall b : Z, inject_Z b * pow2 g <= p -> inject_Z b * pow2 g <= V) /\
  Qabs (V - p) <= pow2 g * (1 # 2).

(** [V] is [p] rounded to a double: to nearest, on a grid that is as fine
    as the doubles around [p] are. *)
Definition rounds_to (p V : Q) : Prop :=
  exists g : Z,
    (forall x : Z, p < pow2 x -> (g <= Z.max (x - 53) (-1074))%Z) /\
    rounded_on g p V.

Lemma nearest_rounded (M E g mt : Z) :
  (0 < M)%Z -> (E <= g)%Z -> nearest M (g - E) mt ->
  rounded_on g (inject_Z M * pow2 E) (inject_Z mt * pow2 g).
Proof.
  intros HM HEg (Hup & Hlow & Herr1 & Herr2).
  assert (Hk : (0 <= g - E)%Z) by lia.
  assert (Hg : forall b, inject_Z b * pow2 g == inject_Z (b * 2 ^ (g - E)) * pow2 E).
  { intros b. rewrite scale_pow2 by exact Hk. now replace (g - E + E)%Z with g by lia. }
  repeat split.
  - exists mt. split; [|reflexivity]. apply (Hlow 0%Z). lia.
  - intros b Hb. rewrite Hg in Hb. apply scaled_le in Hb. apply scaled_le. auto.
  - intros b Hb. rewrite Hg in Hb. apply scaled_le in Hb. apply scaled_le. auto.
  - apply Qabs_Qle_condition. rewrite !Hg.
    assert (Hhalf : pow2 g * (1 # 2) == inject_Z (2 ^ (g - E)) * pow2 E * (1 # 2)).
    { rewrite pow2_Z by exact Hk. rewrite <- pow2_add.
      now replace (g - E + E)%Z with g by lia. }
    rewrite Hhalf.
    set (P := pow2 E). assert (HP : 0 < P) by apply pow2_pos.
    rewrite Zle_Qle in Herr1, Herr2.
    rewrite !inject_Z_plus, !inject_Z_mult in Herr1, Herr2.
    rewrite !inject_Z_mult.
    set (a := inject_Z mt) in *. set (N := inject_Z (2 ^ (g - E))) in *.
    set (m := inject_Z M) in *. change (inject_Z 2) with 2 in *.
    assert (G1 : 0 <= (2 * m + N - 2 * (a * N)) * P) by (apply Qmult_le_0_compat; lra).
    assert (G2 : 0 <= (2 * (a * N) + N - 2 * m) * P) by (apply Qmult_le_0_compat; lra).
    split; lra.
Qed.

End Values.

(** *** Products and sums of doubles *)

Section Operations.

Local Open Scope Z_scope.

Lemma digits_unique (m : positive) (x : Z) :
  2 ^ (x - 1) <= Z.pos m < 2 ^ x -> Z.pos (digits2_pos m) = x.
Proof.
  intros [Hlow Hup]. destruct (digits_bounds m) as [Hlow' Hup'].
  assert (0 < x).
  { destruct (Z.ltb_spec 0 x) as [|Hx]; [assumption|].
    destruct (Z.eq_dec x 0) as [->|Hne]; [cbn in Hup; lia|].
    rewrite Z.pow_neg_r in Hup by lia. lia. }
  assert (H1 : 2 ^ (x - 1) < 2 ^ Z.pos (digits2_pos m)) by lia.
  assert (H2 : 2 ^ (Z.pos (digits2_pos m) - 1) < 2 ^ x) by lia.
  apply Z.pow_lt_mono_r_iff in H1; [|lia|lia].
  apply Z.pow_lt_mono_r_iff in H2; [|lia|lia]. lia.
Qed.

Lemma digits_mul (mx my : positive) :
  Z.pos (digits2_pos mx) + Z.pos (digits2_pos my) - 1 <= Z.pos (digits2_pos (mx * my)).
Proof.
  destruct (digits_bounds mx) as [Hx _]. destruct (digits_bounds my) as [Hy _].
  destruct (digits_bounds (mx * my)) as [_ Hxy].
  set (dx := Z.pos (digits2_pos mx)) in *. set (dy := Z.pos (digits2_pos my)) in *.
  assert (Hprod : 2 ^ (dx - 1 + (dy - 1)) <= Z.pos (mx * my)).
  { rewrite Z.pow_add_r by lia. rewrite Pos2Z.inj_mul.
    apply Z.mul_le_mono_nonneg; try assumption; apply Z.pow_nonneg; lia. }
  assert (H : 2 ^ (dx - 1 + (dy - 1)) < 2 ^ Z.pos (digits2_pos (mx * my))) by lia.
  apply Z.pow_lt_mono_r_iff in H; lia.
Qed.

Lemma digits_shift (m : positive) (d : positive) :
  Z.pos (digits2_pos (Pos.iter xO m d)) = Z.pos (digits2_pos m) + Z.pos d /\
  Z.pos (Pos.iter xO m d) = Z.pos m * 2 ^ Z.pos d.
Proof.
  induction d as [|d IH] using Pos.peano_ind.
  - cbn [Pos.iter digits2_pos]. split; [lia | lia].
  - rewrite Pos.iter_succ. cbn [digits2_pos]. destruct IH as [IH1 IH2].
    rewrite Pos2Z.inj_succ, (Pos2Z.inj_succ d), IH1. split; [lia|].
    rewrite Pos2Z.inj_xO, IH2, Z.pow_succ_r by lia. lia.
Qed.

(** A valid finite double has at most 53 bits; with fewer it sits on the
    lowest exponent. *)
Lemma bounded_canonical (m : positive) (e : Z) :
  bounded prec emax m e = true ->
  e = Z.max (Z.pos (digits2_pos m) + e - 53) (-1074) /\ e <= 971.
Proof.
  unfold bounded, canonical_mantissa. intros H.
  apply andb_prop in H as [H1 H2]. apply Z.eqb_eq in H1. apply Z.leb_le in H2.
  rewrite fexp_eq in H1. change (emax - prec) with 971 in H2. lia.
Qed.

Lemma shl_align_spec (m : positive) (e e' : Z) :
  let '(m', e'') := shl_align m e e' in
  e'' = Z.min e e' /\
  Z.pos m' = Z.pos m * 2 ^ (e - e'') /\
  Z.pos (digits2_pos m') + e'' = Z.pos (digits2_pos m) + e.
Proof.
  unfold shl_align. destruct (e' - e) as [|d|d] eqn:Hd.
  - replace (Z.min e e') with e by lia. rewrite Z.sub_diag. cbn. lia.
  - replace (Z.min e e') with e by lia. rewrite Z.sub_diag. cbn. lia.
  - destruct (digits_shift m d) as [H1 H2].
    replace (Z.min e e') with e' by lia.
    replace (e - e') with (Z.pos d) by lia. lia.
Qed.

End Operations.

Section Rounds.

Local Open Scope Q_scope.

(** Zero or a positive finite number. *)
Definition nonneg_finite (x : spec_float) : Prop :=
  match x with
  | S754_zero _ => True
  | S754_finite false _ _ => True
  | _ => False
  end.

Lemma rounded_on_ext (g : Z) (p p' V V' : Q) :
  p == p' -> V == V' -> rounded_on g p V -> rounded_on g p' V'.
Proof.
  intros Hp HV ((mt & Hmt & Heq) & Hup & Hlow & Herr). repeat split.
  - exists mt. split; [exact Hmt|]. now rewrite <- HV.
  - intros b Hb. rewrite <- HV. apply Hup. now rewrite Hp.
  - intros b Hb. rewrite <- HV. apply Hlow. now rewrite Hp.
  - now rewrite <- HV, <- Hp.
Qed.

Lemma rounds_to_ext (p p' V V' : Q) :
  p == p' -> V == V' -> rounds_to p V -> rounds_to p' V'.
Proof.
  intros Hp HV (g & Hg & Hr). exists g. split.
  - intros x Hx. apply Hg. now rewrite Hp.
  - now apply (rounded_on_ext g p p' V V').
Qed.

(** The number of bits of a mantissa bounds its value from below. *)
Lemma digits_of_value (M : positive) (E x : Z) :
  inject_Z (Z.pos M) * pow2 E < pow2 x -> (Z.pos (digits2_pos M) + E <= x)%Z.
Proof.
  intros Hlt. destruct (digits_bounds M) as [Hlow _].
  set (d := Z.pos (digits2_pos M)) in *.
  assert (Hle : pow2 (d - 1 + E) <= inject_Z (Z.pos M) * pow2 E).
  { rewrite (pow2_scaled (d - 1) E) by lia. apply scaled_le. lia. }
  assert (Hpow : pow2 (d - 1 + E) < pow2 x) by (eapply Qle_lt_trans; eassumption).
  apply pow2_lt_inv in Hpow. lia.
Qed.

(** [binary_round_aux] on an exact positive mantissa rounds to a double. *)
Lemma round_aux_rounds (M : positive) (E : Z) :
  (E <= fexp prec emax (Z.pos (digits2_pos M) + E))%Z ->
  inject_Z (Z.pos M) * pow2 E < pow2 1023 ->
  nonneg_finite (binary_round_aux prec emax false (Z.pos M) E loc_Exact) /\
  rounds_to (inject_Z (Z.pos M) * pow2 E)
            (SF2Q (binary_round_aux prec emax false (Z.pos M) E loc_Exact)).
Proof.
  intros HEg Hlt.
  assert (HD : (Z.pos (digits2_pos M) + E <= 1023)%Z).
  { destruct (digits_bounds M) as [Hlow _].
    set (d := Z.pos (digits2_pos M)) in *.
    assert (Hle : pow2 (d - 1 + E) <= inject_Z (Z.pos M) * pow2 E).
    { rewrite (pow2_scaled (d - 1) E) by lia. apply scaled_le. lia. }
    assert (Hpow : pow2 (d - 1 + E) < pow2 1023) by (eapply Qle_lt_trans; eassumption).
    apply pow2_lt_inv in Hpow. lia. }
  pose proof (binary_round_aux_exact false M E HEg HD) as Hspec.
  set (g := fexp prec emax (Z.pos (digits2_pos M) + E)) in *.
  pose proof (rne_nearest (Z.pos M) (g - E) ltac:(lia) ltac:(lia)) as Hnear.
  pose proof (nearest_rounded (Z.pos M) E g _ ltac:(lia) HEg Hnear) as Hround.
  set (mt := rne (Z.pos M) (g - E)) in *.
  assert (Hgrid : forall x : Z, inject_Z (Z.pos M) * pow2 E < pow2 x ->
                                (g <= Z.max (x - 53) (-1074))%Z).
  { intros x Hx. apply digits_of_value in Hx. unfold g. rewrite fexp_eq. lia. }
  destruct (binary_round_aux prec emax false (Z.pos M) E loc_Exact) as [s|s| |s m e];
    try contradiction.
  - destruct Hspec as [-> Hmt]. split; [exact I|]. exists g. split; [exact Hgrid|].
    refine (rounded_on_ext g _ _ _ _ (Qeq_refl _) _ Hround).
    rewrite Hmt. cbn [SF2Q]. ring.
  - destruct Hspec as [-> Hval]. split; [exact I|]. exists g. split; [exact Hgrid|].
    refine (rounded_on_ext g _ _ _ _ (Qeq_refl _) _ Hround).
    cbn [SF2Q]. destruct Hval as [[-> <-]|[-> <-]].
    + ring.
    + replace (2 * Z.pos m)%Z with (Z.pos m * 2 ^ 1)%Z by lia.
      rewrite (scale_pow2 (Z.pos m) 1 g) by lia. now replace (g + 1)%Z with (1 + g)%Z by lia.
Qed.

(** [binary_round] first aligns the mantissa, then rounds. *)
Lemma round_rounds (M : positive) (E : Z) :
  inject_Z (Z.pos M) * pow2 E < pow2 1023 ->
  nonneg_finite (binary_round prec emax false M E) /\
  rounds_to (inject_Z (Z.pos M) * pow2 E) (SF2Q (binary_round prec emax false M E)).
Proof.
  intros Hlt. unfold binary_round.
  pose proof (shl_align_spec M E (fexp prec emax (Z.pos (digits2_pos M) + E))) as Hal.
  destruct (shl_align M E (fexp prec emax (Z.pos (digits2_pos M) + E))) as [mz ez].
  destruct Hal as (Hez & Hmz & Hdig).
  assert (Hval : inject_Z (Z.pos mz) * pow2 ez == inject_Z (Z.pos M) * pow2 E).
  { rewrite Hmz. rewrite scale_pow2 by lia. now replace (E - ez + ez)%Z with E by lia. }
  destruct (round_aux_rounds mz ez) as [Hfin Hround].
  - rewrite Hdig. lia.
  - now rewrite Hval.
  - split; [exact Hfin|]. apply (rounds_to_ext _ _ _ _ Hval (Qeq_refl _)). exact Hround.
Qed.

End Rounds.

Section Doubles.

Local Open Scope Q_scope.

Definition nonneg (x : float) : Prop := nonneg_finite (Prim2SF x).

(** A positive double with all 53 bits. *)
Definition normal (x : float) : Prop :=
  exists m e, Prim2SF x = S754_finite false m e /\ Z.pos (digits2_pos m) = 53%Z.

Lemma rounds_zero : rounds_to 0 0.
Proof.
  exists (-1074)%Z. split; [intros; lia|]. repeat split.
  - exists 0%Z. split; [lia|]. ring.
  - auto.
  - auto.
  - apply Qabs_Qle_condition. pose proof (pow2_pos (-1074)). split; lra.
Qed.

Lemma valid_rounds_self (m : positive) (e : Z) :
  bounded prec emax m e = true ->
  rounds_to (inject_Z (Z.pos m) * pow2 e) (inject_Z (Z.pos m) * pow2 e).
Proof.
  intros Hb. apply bounded_canonical in Hb as [He _]. exists e. split.
  - intros x Hx. apply digits_of_value in Hx. lia.
  - repeat split.
    + exists (Z.pos m). split; [lia | reflexivity].
    + auto.
    + auto.
    + apply Qabs_Qle_condition. pose proof (pow2_pos e). split; lra.
Qed.

Lemma value_finite (x : float) (m : positive) (e : Z) :
  Prim2SF x = S754_finite false m e -> val x == inject_Z (Z.pos m) * pow2 e.
Proof. intros H. unfold val. rewrite H. cbn [SF2Q]. ring. Qed.

Lemma value_zero (x : float) (s : bool) : Prim2SF x = S754_zero s -> val x == 0.
Proof. intros H. unfold val. rewrite H. reflexivity. Qed.

Lemma finite_bounded (x : float) (s : bool) (m : positive) (e : Z) :
  Prim2SF x = S754_finite s m e -> bounded prec emax m e = true.
Proof. intros H. pose proof (Prim2SF_valid x) as Hv. now rewrite H in Hv. Qed.

(** The product of two non-negative doubles, one of them normal, is the
    exact product rounded. *)
Lemma mul_rounds (x y : float) :
  nonneg x -> nonneg y -> normal x \/ normal y ->
  val x * val y < pow2 1023 ->
  nonneg (x * y) /\ rounds_to (val x * val y) (val (x * y)).
Proof.
  unfold nonneg, normal. intros Hx Hy Hnormal Hlt. unfold val in *.
  rewrite mul_spec. unfold SF64mul.
  destruct (Prim2SF x) as [sx|sx| |sx mx ex] eqn:Ex; try contradiction;
    destruct (Prim2SF y) as [sy|sy| |sy my ey] eqn:Ey; try contradiction;
    cbn [SFmul SF2Q nonneg_finite].
  - split; [exact I|]. apply (rounds_to_ext 0 _ 0 _); [ring | reflexivity | apply rounds_zero].
  - split; [exact I|]. apply (rounds_to_ext 0 _ 0 _); [ring | reflexivity | apply rounds_zero].
  - split; [exact I|]. apply (rounds_to_ext 0 _ 0 _); [ring | reflexivity | apply rounds_zero].
  - destruct sx; [contradiction|]. destruct sy; [contradiction|]. cbn [xorb SF2Q] in *.
    assert (Hval : inject_Z (Z.pos (mx * my)) * pow2 (ex + ey) ==
                   1 * inject_Z (Z.pos mx) * pow2 ex * (1 * inject_Z (Z.pos my) * pow2 ey)).
    { rewrite Pos2Z.inj_mul, inject_Z_mult, pow2_add. ring. }
    destruct (round_aux_rounds (mx * my) (ex + ey)) as [Hfin Hround].
    + pose proof (digits_mul mx my) as Hd. rewrite fexp_eq.
      assert (54 <= Z.pos (digits2_pos mx) + Z.pos (digits2_pos my))%Z.
      { destruct Hnormal as [(m & e & [= <- <-] & Hm)|(m & e & [= <- <-] & Hm)]; lia. }
      lia.
    + now rewrite Hval.
    + split; [exact Hfin|]. exact (rounds_to_ext _ _ _ _ Hval (Qeq_refl _) Hround).
Qed.

(** The sum of two non-negative doubles is the exact sum rounded. *)
Lemma add_rounds (x y : float) :
  nonneg x -> nonneg y ->
  val x + val y < pow2 1023 ->
  nonneg (x + y) /\ rounds_to (val x + val y) (val (x + y)).
Proof.
  unfold nonneg. intros Hx Hy Hlt. unfold val in *.
  rewrite add_spec. unfold SF64add.
  pose proof (Prim2SF_valid x) as Vx. pose proof (Prim2SF_valid y) as Vy.
  destruct (Prim2SF x) as [sx|sx| |sx mx ex] eqn:Ex; try contradiction;
    destruct (Prim2SF y) as [sy|sy| |sy my ey] eqn:Ey; try contradiction;
    cbn [SFadd SF2Q nonneg_finite] in *.
  - destruct sx, sy; (split; [exact I|]);
      apply (rounds_to_ext 0 _ 0 _); try reflexivity; apply rounds_zero.
  - destruct sy; [contradiction|]. split; [exact I|]. cbn [SF2Q].
    refine (rounds_to_ext _ _ _ _ _ _ (valid_rounds_self my ey Vy)); ring.
  - destruct sx; [contradiction|]. split; [exact I|]. cbn [SF2Q].
    refine (rounds_to_ext _ _ _ _ _ _ (valid_rounds_self mx ex Vx)); ring.
  - destruct sx; [contradiction|]. destruct sy; [contradiction|]. cbn [cond_Zopp SF2Q] in *.
    pose proof (shl_align_spec mx ex (Z.min ex ey)) as Hax.
    pose proof (shl_align_spec my ey (Z.min ex ey)) as Hay.
    destruct (shl_align mx ex (Z.min ex ey)) as [ax ex'].
    destruct (shl_align my ey (Z.min ex ey)) as [ay ey'].
    destruct Hax as (Hex' & Hax & _). destruct Hay as (Hey' & Hay & _).
    cbn [fst Z.add binary_normalize].
    assert (Hval : inject_Z (Z.pos (ax + ay)) * pow2 (Z.min ex ey) ==
                   1 * inject_Z (Z.pos mx) * pow2 ex + 1 * inject_Z (Z.pos my) * pow2 ey).
    { rewrite Pos2Z.inj_add, inject_Z_plus, Hax, Hay.
      replace ex' with (Z.min ex ey) by lia. replace ey' with (Z.min ex ey) by lia.
      rewrite Qmult_plus_distr_l.
      rewrite (scale_pow2 (Z.pos mx)), (scale_pow2 (Z.pos my)) by lia.
      replace (ex - Z.min ex ey + Z.min ex ey)%Z with ex by lia.
      replace (ey - Z.min ex ey + Z.min ex ey)%Z with ey by lia. ring. }
    destruct (round_rounds (ax + ay) (Z.min ex ey)) as [Hfin Hround].
    + now rewrite Hval.
    + split; [exact Hfin|]. exact (rounds_to_ext _ _ _ _ Hval (Qeq_refl _) Hround).
Qed.

End Doubles.

Section Comparisons.

Local Open Scope Q_scope.

(** A valid double on a lower exponent is smaller. *)
Lemma lower_exponent_lt (m1 m2 : positive) (e1 e2 : Z) :
  bounded prec emax m1 e1 = true -> bounded prec emax m2 e2 = true ->
  (e1 < e2)%Z ->
  inject_Z (Z.pos m1) * pow2 e1 < inject_Z (Z.pos m2) * pow2 e2.
Proof.
  intros H1 H2 Hlt.
  apply bounded_canonical in H1 as [H1 _]. apply bounded_canonical in H2 as [H2 _].
  destruct (digits_bounds m1) as [_ Hup1]. destruct (digits_bounds m2) as [Hlow2 _].
  set (d1 := Z.pos (digits2_pos m1)) in *. set (d2 := Z.pos (digits2_pos m2)) in *.
  assert (Hd1 : (d1 <= 53)%Z) by lia. assert (Hd2 : d2 = 53%Z) by lia.
  apply Qlt_le_trans with (pow2 (53 + e1)).
  - rewrite (pow2_scaled 53 e1) by lia. apply scaled_lt.
    apply Z.lt_le_trans with (1 := Hup1). apply Z.pow_le_mono_r; lia.
  - apply Qle_trans with (pow2 (52 + e2)); [apply pow2_le; lia|].
    rewrite (pow2_scaled 52 e2) by lia. apply scaled_le.
    rewrite Hd2 in Hlow2. exact Hlow2.
Qed.

(** Comparison of positive doubles is comparison of their values. *)
Lemma compare_positive (m1 m2 : positive) (e1 e2 : Z) :
  bounded prec emax m1 e1 = true -> bounded prec emax m2 e2 = true ->
  match SFcompare (S754_finite false m1 e1) (S754_finite false m2 e2) with
  | Some Lt => inject_Z (Z.pos m1) * pow2 e1 < inject_Z (Z.pos m2) * pow2 e2
  | Some Eq => inject_Z (Z.pos m1) * pow2 e1 == inject_Z (Z.pos m2) * pow2 e2
  | Some Gt => inject_Z (Z.pos m2) * pow2 e2 < inject_Z (Z.pos m1) * pow2 e1
  | None => False
  end.
Proof.
  intros H1 H2. cbn [SFcompare]. destruct (Z.compare_spec e1 e2) as [->|Hlt|Hgt].
  - change (Pos.compare_cont Eq m1 m2) with (m1 ?= m2)%positive.
    destruct (Pos.compare_spec m1 m2) as [->|Hm|Hm].
    + reflexivity.
    + apply scaled_lt. lia.
    + apply scaled_lt. lia.
  - now apply lower_exponent_lt.
  - now apply lower_exponent_lt.
Qed.

Lemma positive_finite (x : float) :
  nonneg x -> 0 < val x ->
  exists m e, Prim2SF x = S754_finite false m e /\ bounded prec emax m e = true.
Proof.
  unfold nonneg, val. intros Hx Hpos. pose proof (Prim2SF_valid x) as Hv.
  destruct (Prim2SF x) as [s|s| |s m e]; try contradiction.
  - cbn in Hpos. lra.
  - destruct s; [contradiction|]. eauto.
Qed.

Lemma ltb_of_value (x y : float) :
  nonneg x -> nonneg y -> 0 < val x -> val x < val y -> (x <? y)%float = true.
Proof.
  intros Hx Hy Hpos Hlt.
  destruct (positive_finite x Hx Hpos) as (mx & ex & Ex & Bx).
  destruct (positive_finite y Hy ltac:(lra)) as (my & ey & Ey & By).
  rewrite ltb_spec. unfold SFltb. rewrite (value_finite _ _ _ Ex), (value_finite _ _ _ Ey) in Hlt.
  pose proof (compare_positive mx my ex ey Bx By) as Hc. rewrite Ex, Ey.
  destruct (SFcompare (S754_finite false mx ex) (S754_finite false my ey)) as [[| |]|];
    try reflexivity; try contradiction; lra.
Qed.

Lemma leb_of_value (x y : float) :
  nonneg x -> nonneg y -> 0 < val x -> val x <= val y -> (x <=? y)%float = true.
Proof.
  intros Hx Hy Hpos Hle.
  destruct (positive_finite x Hx Hpos) as (mx & ex & Ex & Bx).
  destruct (positive_finite y Hy ltac:(lra)) as (my & ey & Ey & By).
  rewrite leb_spec. unfold SFleb. rewrite (value_finite _ _ _ Ex), (value_finite _ _ _ Ey) in Hle.
  pose proof (compare_positive mx my ex ey Bx By) as Hc. rewrite Ex, Ey.
  destruct (SFcompare (S754_finite false mx ex) (S754_finite false my ey)) as [[| |]|];
    try reflexivity; try contradiction; lra.
Qed.

(** A draw [r] with [0 <= r < 1]. *)
Lemma unit_interval (r : float) :
  (0 <=? r)%float = true -> (r <? 1)%float = true ->
  nonneg r /\ 0 <= val r /\ val r < 1.
Proof.
  rewrite leb_spec, ltb_spec. unfold nonneg, val, SFleb, SFltb.
  pose proof (Prim2SF_valid r) as Hv.
  change (Prim2SF 0) with (S754_zero false).
  change (Prim2SF 1) with (S754_finite false 4503599627370496 (-52)).
  destruct (Prim2SF r) as [s|s| |s m e]; cbn [SFcompare].
  - intros _ _. cbn. repeat split; lra.
  - destruct s; discriminate.
  - discriminate.
  - destruct s; [discriminate|]. intros _ Hlt. split; [exact I|].
    pose proof (compare_positive m 4503599627370496 e (-52) Hv eq_refl) as Hc.
    cbn [SFcompare] in Hc. cbn [SF2Q].
    assert (Hone : inject_Z (Z.pos 4503599627370496) * pow2 (-52) == 1) by reflexivity.
    assert (Hpos : 0 < inject_Z (Z.pos m) * pow2 e).
    { apply Qmult_lt_0_compat; [reflexivity | apply pow2_pos]. }
    destruct (e ?= -52)%Z; [destruct (Pos.compare_cont Eq m 4503599627370496)| |];
      try discriminate; split; lra.
Qed.

End Comparisons.

Section Bounds.

Local Open Scope Q_scope.

Lemma nonneg_value (x : float) : nonneg x -> 0 <= val x.
Proof.
  unfold nonneg, val. destruct (Prim2SF x) as [s|s| |s m e]; try contradiction.
  - intros _. cbn. lra.
  - destruct s; [contradiction|]. intros _. cbn [SF2Q].
    assert (0 < inject_Z (Z.pos m) * pow2 e)
      by (apply Qmult_lt_0_compat; [reflexivity | apply pow2_pos]).
    lra.
Qed.

(** Rounding does not cross a number that the grid contains. *)
Lemma rounds_le (p V : Q) (c t x : Z) :
  rounds_to p V -> p < pow2 x -> (Z.max (x - 53) (-1074) <= t)%Z ->
  p <= inject_Z c * pow2 t -> V <= inject_Z c * pow2 t.
Proof.
  intros (g & Hg & _ & Hup & _) Hx Ht Hp. specialize (Hg x Hx).
  assert (Heq : inject_Z c * pow2 t == inject_Z (c * 2 ^ (t - g)) * pow2 g).
  { rewrite scale_pow2 by lia. now replace (t - g + g)%Z with t by lia. }
  rewrite Heq in *. now apply Hup.
Qed.

Lemma rounds_ge (p V : Q) (c t x : Z) :
  rounds_to p V -> p < pow2 x -> (Z.max (x - 53) (-1074) <= t)%Z ->
  inject_Z c * pow2 t <= p -> inject_Z c * pow2 t <= V.
Proof.
  intros (g & Hg & _ & _ & Hlow & _) Hx Ht Hp. specialize (Hg x Hx).
  assert (Heq : inject_Z c * pow2 t == inject_Z (c * 2 ^ (t - g)) * pow2 g).
  { rewrite scale_pow2 by lia. now replace (t - g + g)%Z with t by lia. }
  rewrite Heq in *. now apply Hlow.
Qed.

(** The rounding error is at most half a unit in the last place. *)
Lemma rounds_err (p V : Q) (t x : Z) :
  rounds_to p V -> p < pow2 x -> (Z.max (x - 53) (-1074) <= t)%Z ->
  Qabs (V - p) <= pow2 t * (1 # 2).
Proof.
  intros (g & Hg & _ & _ & _ & Herr) Hx Ht. specialize (Hg x Hx).
  apply Qle_trans with (1 := Herr).
  assert (pow2 g <= pow2 t) by (apply pow2_le; lia). lra.
Qed.

(** A double below [c * 2^t], for [c] of more than 52 bits, is at most
    [(c - 1) * 2^t]. *)
Lemma below_grid_point (x : float) (c t : Z) :
  nonneg x -> (2 ^ 52 + 1 <= c)%Z ->
  val x < inject_Z c * pow2 t -> val x <= inject_Z (c - 1) * pow2 t.
Proof.
  unfold nonneg, val. intros Hx Hc Hlt. pose proof (Prim2SF_valid x) as Hv.
  destruct (Prim2SF x) as [s|s| |s m e]; try contradiction.
  - cbn [SF2Q]. assert (0 <= inject_Z (c - 1) * pow2 t); [|assumption].
    apply Qmult_le_0_compat; [|apply Qlt_le_weak, pow2_pos].
    change 0 with (inject_Z 0). rewrite <- Zle_Qle. lia.
  - destruct s; [contradiction|]. cbn [SF2Q] in *.
    assert (Hval : 1 * inject_Z (Z.pos m) * pow2 e == inject_Z (Z.pos m) * pow2 e) by ring.
    rewrite Hval in *. clear Hval.
    apply bounded_canonical in Hv as [He _]. destruct (digits_bounds m) as [_ Hup].
    destruct (Z.le_gt_cases t e) as [Hte|Hte].
    + assert (Heq : inject_Z (Z.pos m) * pow2 e == inject_Z (Z.pos m * 2 ^ (e - t)) * pow2 t).
      { rewrite scale_pow2 by lia. now replace (e - t + t)%Z with e by lia. }
      rewrite Heq in *. apply scaled_lt in Hlt. apply scaled_le. lia.
    + apply Qle_trans with (pow2 (53 + e)).
      * rewrite (pow2_scaled 53 e) by lia. apply scaled_le.
        assert (2 ^ Z.pos (digits2_pos m) <= 2 ^ 53)%Z by (apply Z.pow_le_mono_r; lia).
        lia.
      * apply Qle_trans with (pow2 (52 + t)); [apply pow2_le; lia|].
        rewrite (pow2_scaled 52 t) by lia. apply scaled_le. lia.
Qed.

End Bounds.

Section Delay.

Local Open Scope Q_scope.

Lemma pow2_1023_large : 4 <= pow2 1023.
Proof.
  apply Qle_trans with (pow2 2); [|apply pow2_le; lia]. now cbv.
Qed.

(** [random.uniform(0.5, 2.0)] for a draw in [0, 1). *)
Lemma uniform_half_two (r : float) :
  (0 <=? r)%float = true -> (r <? 1)%float = true ->
  let delay := (0.5 + (2.0 - 0.5) * r)%float in
  nonneg delay /\ 1 # 2 <= val delay /\ val delay < 2 /\
  (0.5 <=? delay)%float = true /\ (delay <? 2.0)%float = true.
Proof.
  intros H0 H1. change (2.0 - 0.5)%float with 1.5%float. cbv zeta.
  destruct (unit_interval r H0 H1) as (Hr & Hr0 & Hr1).
  pose proof pow2_1023_large as Hbig.
  assert (V15 : val 1.5 == 3 # 2) by reflexivity.
  assert (V05 : val 0.5 == 1 # 2) by reflexivity.
  assert (V2 : val 2 == 2) by reflexivity.
  (* the draw is at most 1 - 2^-53 *)
  assert (Hr1' : val r <= inject_Z (2 ^ 53 - 1) * pow2 (-53)).
  { apply (below_grid_point r (2 ^ 53) (-53) Hr); [lia|].
    assert (inject_Z (2 ^ 53) * pow2 (-53) == 1) by reflexivity. lra. }
  assert (Hc1 : inject_Z (2 ^ 53 - 1) * pow2 (-53) == 9007199254740991 # 9007199254740992)
    by reflexivity.
  (* the product *)
  destruct (mul_rounds 1.5 r) as [Hv Hround]; [exact I | exact Hr | | nra |].
  { left. exists 6755399441055744%positive, (-52)%Z. split; reflexivity. }
  set (v := (1.5 * r)%float) in *.
  assert (Hp2 : val 1.5 * val r < pow2 1) by (change (pow2 1) with 2; nra).
  pose proof (rounds_err _ _ (-52) 1 Hround Hp2 ltac:(lia)) as Herr.
  apply Qabs_Qle_condition in Herr.
  assert (Hh : pow2 (-52) * (1 # 2) == 1 # 9007199254740992) by reflexivity.
  assert (Hv15 : val v < inject_Z (3 * 2 ^ 51) * pow2 (-52)).
  { assert (inject_Z (3 * 2 ^ 51) * pow2 (-52) == 3 # 2) by reflexivity. nra. }
  apply (below_grid_point v (3 * 2 ^ 51) (-52) Hv ltac:(lia)) in Hv15.
  assert (Hc2 : inject_Z (3 * 2 ^ 51 - 1) * pow2 (-52) == 6755399441055743 # 4503599627370496)
    by reflexivity.
  pose proof (nonneg_value v Hv) as Hv0.
  (* the sum *)
  destruct (add_rounds 0.5 v) as [Hd Hsum]; [exact I | exact Hv | lra |].
  set (d := (0.5 + v)%float) in *.
  assert (Hs2 : val 0.5 + val v < pow2 1) by (change (pow2 1) with 2; lra).
  assert (Hup : val d <= inject_Z (2 ^ 53 - 1) * pow2 (-52)).
  { apply (rounds_le _ _ _ _ 1 Hsum Hs2); [lia|].
    assert (inject_Z (2 ^ 53 - 1) * pow2 (-52) == 9007199254740991 # 4503599627370496)
      by reflexivity.
    lra. }
  assert (Hlow : inject_Z (2 ^ 51) * pow2 (-52) <= val d).
  { apply (rounds_ge _ _ _ _ 1 Hsum Hs2); [lia|].
    assert (inject_Z (2 ^ 51) * pow2 (-52) == 1 # 2) by reflexivity. lra. }
  assert (Hc3 : inject_Z (2 ^ 53 - 1) * pow2 (-52) == 9007199254740991 # 4503599627370496)
    by reflexivity.
  assert (Hc4 : inject_Z (2 ^ 51) * pow2 (-52) == 1 # 2) by reflexivity.
  split; [exact Hd|]. split; [lra|]. split; [lra|]. split.
  - apply leb_of_value; [exact I | exact Hd | lra | lra].
  - apply ltb_of_value; [exact Hd | exact I | lra | lra].
Qed.

End Delay.

Section Steps.

Local Open Scope Q_scope.

(** The three sleeps of /api/slow add up to the delay, up to the rounding
    of the three products. *)
Lemma step_sleeps_sum (d : float) :
  nonneg d -> 1 # 2 <= val d -> val d < 2 ->
  nonneg (d * 0.3) /\ nonneg (d * 0.4) /\
  Qabs (val (d * 0.3) + val (d * 0.4) + val (d * 0.3) - val d) <= 3 # 2 ^ 54.
Proof.
  intros Hd Hlow Hup. pose proof pow2_1023_large as Hbig.
  assert (V3 : val 0.3 == 5404319552844595 # 18014398509481984) by reflexivity.
  assert (V4 : val 0.4 == 3602879701896397 # 9007199254740992) by reflexivity.
  assert (Hh : pow2 (-53) * (1 # 2) == 1 # 18014398509481984) by reflexivity.
  destruct (mul_rounds d 0.3) as [H3 R3]; [exact Hd | exact I | | nra |].
  { right. exists 5404319552844595%positive, (-54)%Z. split; reflexivity. }
  destruct (mul_rounds d 0.4) as [H4 R4]; [exact Hd | exact I | | nra |].
  { right. exists 7205759403792794%positive, (-54)%Z. split; reflexivity. }
  assert (P3 : val d * val 0.3 < pow2 0) by (change (pow2 0) with 1; nra).
  assert (P4 : val d * val 0.4 < pow2 0) by (change (pow2 0) with 1; nra).
  pose proof (rounds_err _ _ (-53) 0 R3 P3 ltac:(lia)) as E3.
  pose proof (rounds_err _ _ (-53) 0 R4 P4 ltac:(lia)) as E4.
  apply Qabs_Qle_condition in E3, E4.
  split; [exact H3|]. split; [exact H4|].
  apply Qabs_Qle_condition.
  set (s3 := val (d * 0.3)) in *. set (s4 := val (d * 0.4)) in *.
  set (vd := val d) in *. set (c3 := val 0.3) in *. set (c4 := val 0.4) in *.
  change (3 # 2 ^ 54) with (3 # 18014398509481984).
  split; nra.
Qed.

End Steps.

(** ** Payloads *)

(** C5. The response of /api/users carries the three fixed records and the
    count 3, which is the length of the list of users. *)
Theorem users_count_matches (w : world) :
  exists us : list json,
    fst (serve ApiUsers w) =
      Response 200 (JDict [("users", JList us); ("count", JInt (len us))]) /\
    us = [JDict [("id", JInt 1); ("name", JStr "Alice"); ("email", JStr "alice@example.com")];
          JDict [("id", JInt 2); ("name", JStr "Bob"); ("email", JStr "bob@example.com")];
          JDict [("id", JInt 3); ("name", JStr "Charlie"); ("email", JStr "charlie@example.com")]] /\
    us = map user_json users /\
    len us = 3%Z /\ len users = 3%Z.
Proof.
  destruct (opened_return ApiUsers w _ _ _ _ _ (get_users_run w)) as (Hserve & _).
  rewrite Hserve. exists (map user_json users). repeat split.
Qed.

(** [sum] as CPython 3.12 computes it for floats, with Neumaier's
    compensation: the running sum [s] and the compensation [c]. *)
Definition total_of_compensated (os : list order) : float :=
  let '(s, c) :=
    fold_left (fun '(s, c) o =>
      let x := order_total o in
      let t := (s + x)%float in
      if (abs x <=? abs s)%float then (t, (c + ((s - t) + x))%float)
      else (t, (c + ((x - t) + s))%float)) os (0%float, 0%float) in
  (s + c)%float.

(** Both ways of summing give the same double for the fixture. *)
Lemma total_of_compensated_orders : total_of_compensated orders = total_of orders.
Proof. vm_compute. reflexivity. Qed.

(** C6. The attribute order.total_value of the outer span of /api/orders is
    the float sum 99.99 + 149.50 + 29.99; it is the double 279.48, less
    than 1e-12 away from the decimal 279.48; the completion event carries
    the same value as total_value. *)
Theorem orders_total_value (w : world) :
  exists s ev,
    opened ApiOrders w !! 0 = Some s /\
    span_name s = "get_orders" /\
    attributes s !! "order.total_value" = Some (VFloat (total_of orders)) /\
    last (events s) = Some ev /\
    ev_name ev = "Orders retrieved successfully" /\
    ev_attributes ev !! "total_value" = Some (VFloat (total_of orders)) /\
    total_of orders = (0 + 99.99 + 149.50 + 29.99)%float /\
    total_of orders = 279.48%float /\
    (Qabs (val (total_of orders) - (27948 # 100)) <= 1 # 10 ^ 12)%Q.
Proof.
  destruct (opened_return ApiOrders w _ _ _ _ _ (get_orders_run w)) as (_ & Hopen & _).
  rewrite Hopen. eexists _, _. cbn [lookup list_lookup span_name attributes events last].
  split; [reflexivity|]. split; [reflexivity|].
  split; [apply lookup_insert_eq|].
  split; [reflexivity|]. split; [reflexivity|]. cbn [ev_attributes].
  split; [rewrite lookup_insert_ne by discriminate; apply lookup_singleton_eq|].
  split; [reflexivity|]. split; [vm_compute; reflexivity|].
  vm_compute. discriminate.
Qed.

(** [d[k]] for a JSON dict. *)
Definition dict_get (k : string) (j : json) : option json :=
  match j with
  | JDict kvs => snd <$> List.find (fun kv => String.eqb (fst kv) k) kvs
  | _ => None
  end.

(** The strings of a JSON list. *)
Definition json_strings (j : json) : list string :=
  match j with
  | JList l => omap (fun x => match x with JStr s => Some s | _ => None end) l
  | _ => []
  end.

(** The entries of the endpoints array of a response. *)
Definition endpoints_of (resp : response) : list string :=
  match dict_get "endpoints" (resp_body resp) with
  | Some j => json_strings j
  | None => []
  end.

(** /api/error is a route of the service, and the endpoints array of the
    welcome payload does not list it. *)
Lemma home_omits_error_route :
  In ApiError routes /\
  view ApiError = error_endpoint /\
  ~ In (path ApiError) (endpoints_of (fst (serve Home (bare 0.25)))).
Proof.
  split; [cbn; tauto|]. split; [reflexivity|].
  vm_compute. intros H. repeat destruct H as [H|H]; try discriminate H. exact H.
Qed.

(** C8, as the code has it. The response of / is the static payload with
    the welcome message and the endpoints /, /health, /api/users,
    /api/orders and /api/slow: every entry is the path of a route, and
    every route but /api/error is listed. *)
Theorem home_lists_routes_but_error (w : world) :
  fst (serve Home w) =
    Response 200 (JDict
      [("message", JStr "Welcome to the traced web app!");
       ("endpoints", JList [JStr "/"; JStr "/health"; JStr "/api/users";
                            JStr "/api/orders"; JStr "/api/slow"])]) /\
  endpoints_of (fst (serve Home w)) =
    ["/"; "/health"; "/api/users"; "/api/orders"; "/api/slow"] /\
  (forall p, In p (endpoints_of (fst (serve Home w))) -> exists r, In r routes /\ path r = p) /\
  (forall r, In (path r) (endpoints_of (fst (serve Home w))) <-> r <> ApiError).
Proof.
  destruct (opened_return Home w _ _ _ _ _ (home_run w)) as (Hserve & _).
  rewrite Hserve. cbn [fst]. split; [reflexivity|].
  change (endpoints_of home_response)
    with ["/"; "/health"; "/api/users"; "/api/orders"; "/api/slow"].
  split; [reflexivity|]. split.
  - intros p Hp. cbn in Hp.
    destruct Hp as [<-|[<-|[<-|[<-|[<-|[]]]]]];
      [exists Home | exists Health | exists ApiUsers | exists ApiOrders | exists ApiSlow];
      cbn; tauto.
  - intros r. split.
    + intros Hin ->. cbn in Hin.
      repeat destruct Hin as [Hin|Hin]; try discriminate Hin. exact Hin.
    + intros Hr. destruct r; cbn; tauto.
Qed.

(** ** Closing of spans *)

(** A clock that is set back by 100 seconds after its [k]-th reading. *)
Definition set_back_after (k n : nat) : float :=
  PrimFloat.of_uint63
    (Uint63.of_Z (if Nat.ltb n k then 1000 + Z.of_nat n else 900 + Z.of_nat (Nat.min n 64))).

Definition adjusted (k : nat) : world :=
  World (set_back_after k) 0 (fun _ => 0.25%float) 0 [] None [].

(** The number of spans a view function opens. *)
Definition spans_of (r : route) : nat :=
  match r with
  | ApiUsers | ApiOrders => 2
  | ApiSlow => 4
  | _ => 1
  end.

Ltac count_ends :=
  unfold times_ended; cbn [List.filter is_end];
  repeat match goal with
    | |- context [Nat.eqb ?a ?b] =>
        first [ rewrite (proj2 (Nat.eqb_eq a b)) by lia
              | rewrite (proj2 (Nat.eqb_neq a b)) by lia ]
    end;
  reflexivity.

(** /api/slow opens four spans, not five; and when the wall clock is set
    back during a request, a span ends before it started. *)
Lemma four_spans_and_clock_set_back :
  length (opened ApiSlow (bare 0.25)) = 4 /\
  map span_name (opened ApiSlow (bare 0.25)) =
    ["slow_operation"; "step_1_processing"; "step_2_processing"; "step_3_processing"] /\
  exists s t, opened Home (adjusted 1) !! 0 = Some s /\
              end_time s = Some t /\
              (t <? start_time s)%float = true.
Proof.
  split; [vm_compute; reflexivity|]. split; [vm_compute; reflexivity|].
  eexists _, _. split; [vm_compute; reflexivity|]. split; reflexivity.
Qed.

(** C2, as the code has it. On every route and on both exits of the view
    function, every span opened during the request is in the store when
    the response is produced, ended exactly once, with the current span of
    the context restored: one span for /, /health and /api/error (also when
    it raises), two for /api/users and /api/orders, and four for /api/slow.
    The end time is not before the start time provided the clock is not
    set back while the request is served. *)
Theorem spans_closed_before_response (r : route) (w : world) :
  length (spans (snd (serve r w))) = length (spans w) + spans_of r /\
  length (opened r w) = spans_of r /\
  current (snd (serve r w)) = current w /\
  forall k s, opened r w !! k = Some s ->
    times_ended (length (spans w) + k) (performed r w) = 1 /\
    exists t, end_time s = Some t /\
              (steady w -> (start_time s <=? t)%float = true).
Proof.
  assert (Hclosed : forall name parent i j st attrs evs, i <= j ->
            let s' := Span name parent (at_ w i) (Some (at_ w j)) st attrs evs in
            exists t, end_time s' = Some t /\
                      (steady w -> (start_time s' <=? t)%float = true)).
  { intros name parent i j st attrs evs Hij. cbn. eexists. split; [reflexivity|].
    intros Hsteady. apply Hsteady. exact Hij. }
  assert (Hlen : length (spans (snd (serve r w))) = length (spans w) + spans_of r).
  { destruct r.
    + destruct (opened_return Home w _ _ _ _ _ (home_run w)) as (-> & _).
      cbn [snd after spans]. now rewrite length_app.
    + destruct (opened_return Health w _ _ _ _ _ (health_run w)) as (-> & _).
      cbn [snd after spans]. now rewrite length_app.
    + destruct (opened_return ApiUsers w _ _ _ _ _ (get_users_run w)) as (-> & _).
      cbn [snd after spans]. now rewrite length_app.
    + destruct (opened_return ApiOrders w _ _ _ _ _ (get_orders_run w)) as (-> & _).
      cbn [snd after spans]. now rewrite length_app.
    + destruct (opened_return ApiSlow w _ _ _ _ _ (slow_endpoint_run w)) as (-> & _).
      cbn [snd after spans]. now rewrite length_app.
    + destruct (fails w) eqn:Hdraw.
      * rewrite (serve_raise ApiError _ _ _ (error_endpoint_raise w Hdraw)),
          handle_exception_run.
        cbn [snd after current]. destruct (current w); cbn [after spans].
        -- now rewrite length_alter, length_app.
        -- now rewrite length_app.
      * destruct (opened_return ApiError w _ _ _ _ _ (error_endpoint_return w Hdraw))
          as (-> & _).
        cbn [snd after spans]. now rewrite length_app. }
  split; [exact Hlen|]. split; [unfold opened; rewrite length_drop; lia|].
  - destruct r.
    + destruct (opened_return Home w _ _ _ _ _ (home_run w)) as (-> & -> & ->).
      split; [reflexivity|]. intros k s Hs. pick Hs.
      split; [count_ends | apply Hclosed; lia].
    + destruct (opened_return Health w _ _ _ _ _ (health_run w)) as (-> & -> & ->).
      split; [reflexivity|]. intros k s Hs. pick Hs.
      split; [count_ends | apply Hclosed; lia].
    + destruct (opened_return ApiUsers w _ _ _ _ _ (get_users_run w)) as (-> & -> & ->).
      split; [reflexivity|]. intros k s Hs. pick Hs.
      all: split; [count_ends | apply Hclosed; lia].
    + destruct (opened_return ApiOrders w _ _ _ _ _ (get_orders_run w)) as (-> & -> & ->).
      split; [reflexivity|]. intros k s Hs. pick Hs.
      all: split; [count_ends | apply Hclosed; lia].
    + destruct (opened_return ApiSlow w _ _ _ _ _ (slow_endpoint_run w)) as (-> & -> & ->).
      split; [reflexivity|]. intros k s Hs. pick Hs.
      all: split; [count_ends | apply Hclosed; lia].
    + destruct (fails w) eqn:Hdraw.
      * pose proof (error_endpoint_raise w Hdraw) as Hrun.
        destruct (opened_raise ApiError w _ _ _ _ _ Hrun) as (_ & -> & ->).
        rewrite (serve_raise ApiError _ _ _ Hrun), handle_exception_run.
        split; [cbn [snd after current]; destruct (current w) eqn:Hc; cbn [after current]; congruence|].
        intros k s Hs. case_decide; pick Hs.
        all: split; [count_ends | apply Hclosed; lia].
      * destruct (opened_return ApiError w _ _ _ _ _ (error_endpoint_return w Hdraw))
          as (-> & -> & ->).
        split; [reflexivity|]. intros k s Hs. pick Hs.
        split; [count_ends | apply Hclosed; lia].
Qed.

Lemma ticking_mono (i j : nat) : i <= j -> (ticking i <=? ticking j)%float = true.
Proof.
  intros Hij.
  assert (Hall : forallb (fun b => forallb (fun a => (ticking a <=? ticking b)%float)
                                     (seq 0 (S b))) (seq 0 65) = true)
    by (vm_compute; reflexivity).
  assert (Hcap : forall n, ticking n = ticking (Nat.min n 64)).
  { intros n. unfold ticking.
    now replace (Nat.min (Nat.min n 64) 64) with (Nat.min n 64) by lia. }
  rewrite (Hcap i), (Hcap j).
  rewrite forallb_forall in Hall.
  specialize (Hall (Nat.min j 64)). rewrite forallb_forall in Hall.
  apply Hall; apply in_seq; lia.
Qed.

Lemma bare_steady (first : float) : steady (bare first).
Proof. intros i j Hij. apply ticking_mono. cbn. lia. Qed.

Lemma spans_closed_before_response_witness :
  exists s t, opened ApiSlow (bare 0.25) !! 3 = Some s /\
              span_name s = "step_3_processing" /\
              times_ended 3 (performed ApiSlow (bare 0.25)) = 1 /\
              end_time s = Some t /\
              (start_time s <=? t)%float = true.
Proof.
  assert (Hs : opened ApiSlow (bare 0.25) !! 3 =
               Some (step_span 3 "step_3_processing" "Step 3 completed" 0
                       (ticking 8) (ticking 9) (ticking 10)))
    by (vm_compute; reflexivity).
  destruct (spans_closed_before_response ApiSlow (bare 0.25)) as (_ & _ & _ & Hclosed).
  destruct (Hclosed 3 _ Hs) as (Hends & t & Ht & Hle).
  eexists _, t. split; [exact Hs|]. split; [reflexivity|].
  split; [exact Hends|]. split; [exact Ht|]. apply Hle, bare_steady.
Defined.

(** ** Timestamps of /health *)

(** Requests served one after the other. *)
Fixpoint serve_all (rs : list route) (w : world) : list response * world :=
  match rs with
  | [] => ([], w)
  | r :: rs' =>
      let (resp, w1) := serve r w in
      let (resps, w2) := serve_all rs' w1 in
      (resp :: resps, w2)
  end.

(** The timestamp field of a response. *)
Definition timestamp_of (resp : response) : option float :=
  match dict_get "timestamp" (resp_body resp) with
  | Some (JFloat t) => Some t
  | _ => None
  end.

(** Serving a request reads the clock some number of times and leaves the
    clock itself alone. *)
Lemma serve_clock (r : route) (w : world) :
  exists k, clock (snd (serve r w)) = clock w /\ ticks (snd (serve r w)) = k + ticks w.
Proof.
  destruct r.
  - destruct (opened_return Home w _ _ _ _ _ (home_run w)) as (-> & _). eexists; split; reflexivity.
  - destruct (opened_return Health w _ _ _ _ _ (health_run w)) as (-> & _). eexists; split; reflexivity.
  - destruct (opened_return ApiUsers w _ _ _ _ _ (get_users_run w)) as (-> & _). eexists; split; reflexivity.
  - destruct (opened_return ApiOrders w _ _ _ _ _ (get_orders_run w)) as (-> & _). eexists; split; reflexivity.
  - destruct (opened_return ApiSlow w _ _ _ _ _ (slow_endpoint_run w)) as (-> & _). eexists; split; reflexivity.
  - destruct (fails w) eqn:Hdraw.
    + rewrite (serve_raise ApiError _ _ _ (error_endpoint_raise w Hdraw)), handle_exception_run.
      cbn [snd after current]. destruct (current w); cbn [after clock ticks].
      * exists 5. split; reflexivity.
      * exists 4. split; reflexivity.
    + destruct (opened_return ApiError w _ _ _ _ _ (error_endpoint_return w Hdraw)) as (-> & _).
      eexists; split; reflexivity.
Qed.

(** The timestamp of a /health response is the third clock reading of its
    request. *)
Lemma health_timestamp (w : world) :
  timestamp_of (fst (serve Health w)) = Some (clock w (2 + ticks w)) /\
  clock (snd (serve Health w)) = clock w /\
  ticks (snd (serve Health w)) = 4 + ticks w.
Proof.
  destruct (opened_return Health w _ _ _ _ _ (health_run w)) as (-> & _).
  repeat split.
Qed.

(** The timestamp of every /health response in a sequence of requests is a
    reading of the clock, taken after the reading of every earlier one. *)
Lemma health_readings (rs : list route) :
  forall (w : world) (a : nat) (ra : response),
    rs !! a = Some Health ->
    fst (serve_all rs w) !! a = Some ra ->
    exists i, timestamp_of ra = Some (clock w (i + ticks w)) /\
      forall (b : nat) (rb : response),
        a <= b -> rs !! b = Some Health -> fst (serve_all rs w) !! b = Some rb ->
        exists j, i <= j /\ timestamp_of rb = Some (clock w (j + ticks w)).
Proof.
  induction rs as [|r rs IH]; intros w a ra Hra Ha; [discriminate|].
  cbn [serve_all] in *.
  destruct (serve r w) as [resp w1] eqn:Hserve.
  destruct (serve_all rs w1) as [resps w2] eqn:Hall.
  destruct (serve_clock r w) as (k & Hclock & Hticks).
  rewrite Hserve in Hclock, Hticks. cbn [snd fst] in *.
  assert (Hshift : forall n, clock w1 (n + ticks w1) = clock w (n + k + ticks w)).
  { intros n. rewrite Hclock, Hticks. f_equal. lia. }
  pose proof (IH w1) as IH1. rewrite Hall in IH1. cbn [fst] in IH1.
  destruct a as [|a]; cbn [lookup list_lookup] in Hra, Ha.
  - injection Hra as ->. injection Ha as <-.
    destruct (health_timestamp w) as (Hts & _ & Hk).
    rewrite Hserve in Hts, Hk. cbn [fst snd] in Hts, Hk.
    exists 2. split; [exact Hts|].
    intros [|b] rb _ Hrb Hb; cbn [lookup list_lookup] in Hrb, Hb.
    + injection Hb as <-. exists 2. split; [lia | exact Hts].
    + destruct (IH1 b rb Hrb Hb) as (j & Hj & _).
      exists (j + k). rewrite <- Hshift. split; [lia | exact Hj].
  - destruct (IH1 a ra Hra Ha) as (i & Hi & Hlater).
    exists (i + k). rewrite <- Hshift. split; [exact Hi|].
    intros [|b] rb Hab Hrb Hb; [lia|]. cbn [lookup list_lookup] in Hrb, Hb.
    destruct (Hlater b rb ltac:(lia) Hrb Hb) as (j & Hij & Hj).
    exists (j + k). rewrite <- Hshift. split; [lia | exact Hj].
Qed.

(** When the wall clock is set back between two requests, the second
    /health response carries the smaller timestamp. *)
Lemma health_timestamp_can_decrease :
  exists t1 t2,
    map timestamp_of (fst (serve_all [Health; Health] (adjusted 4))) = [Some t1; Some t2] /\
    (t2 <? t1)%float = true /\ (t1 <=? t2)%float = false.
Proof. eexists _, _. split; [vm_compute; reflexivity|]. split; reflexivity. Qed.

(** C9, as the code has it. In any sequence of requests served one after
    the other, the timestamp of a /health response is the reading of the
    wall clock taken by its request; provided the clock is not set back,
    it is greater than or equal to the timestamp of every earlier /health
    response. *)
Theorem health_timestamps_follow_clock (rs : list route) (w : world) (a b : nat)
    (ra rb : response) :
  steady w ->
  a <= b ->
  rs !! a = Some Health -> rs !! b = Some Health ->
  fst (serve_all rs w) !! a = Some ra ->
  fst (serve_all rs w) !! b = Some rb ->
  exists ta tb,
    timestamp_of ra = Some ta /\ timestamp_of rb = Some tb /\
    (exists i, ta = clock w (i + ticks w)) /\
    (ta <=? tb)%float = true.
Proof.
  intros Hsteady Hab Hra Hrb Ha Hb.
  destruct (health_readings rs w a ra Hra Ha) as (i & Hi & Hlater).
  destruct (Hlater b rb Hab Hrb Hb) as (j & Hij & Hj).
  eexists _, _. split; [exact Hi|]. split; [exact Hj|]. split; [eauto|].
  apply Hsteady. exact Hij.
Qed.

Lemma health_timestamps_follow_clock_witness :
  exists ta tb,
    map timestamp_of (fst (serve_all [Health; ApiError; Health] (bare 0.25))) =
      [Some ta; None; Some tb] /\
    (ta <=? tb)%float = true.
Proof.
  assert (Hall : fst (serve_all [Health; ApiError; Health] (bare 0.25)) =
                 [Response 200 (JDict [("status", JStr "healthy"); ("timestamp", JFloat (ticking 2))]);
                  Response 500 (JDict [("error", JStr "Random error occurred!")]);
                  Response 200 (JDict [("status", JStr "healthy"); ("timestamp", JFloat (ticking 10))])])
    by (vm_compute; reflexivity).
  destruct (health_timestamps_follow_clock [Health; ApiError; Health] (bare 0.25) 0 2
              (Response 200 (JDict [("status", JStr "healthy"); ("timestamp", JFloat (ticking 2))]))
              (Response 200 (JDict [("status", JStr "healthy"); ("timestamp", JFloat (ticking 10))])))
    as (ta & tb & Hta & Htb & _ & Hle).
  - apply bare_steady.
  - lia.
  - reflexivity.
  - reflexivity.
  - rewrite Hall. reflexivity.
  - rewrite Hall. reflexivity.
  - injection Hta as <-. injection Htb as <-.
    exists (ticking 2), (ticking 10). split; [rewrite Hall; reflexivity | exact Hle].
Defined.

(** ** The slow route *)

(** The time between the start and the end of a span, in seconds. *)
Definition duration (s : span) : Q :=
  match end_time s with
  | Some t => (val t - val (start_time s))%Q
  | None => 0%Q
  end.

(** The arguments of the calls of [time.sleep], in order. *)
Definition sleeps (eff : list effect) : list float :=
  omap (fun e => match e with Slept d => Some d | _ => None end) eff.

(** The durations of the step spans are differences of clock readings:
    with a clock that shows one second more at every reading they add up
    to six seconds, for a delay of 0.875 seconds. *)
Lemma step_durations_follow_clock :
  exists outer s1 s2 s3 delay,
    opened ApiSlow (bare 0.25) = [outer; s1; s2; s3] /\
    dict_get "delay_seconds" (resp_body (fst (serve ApiSlow (bare 0.25)))) = Some (JFloat delay) /\
    sleeps (performed ApiSlow (bare 0.25)) = [delay * 0.3; delay * 0.4; delay * 0.3]%float /\
    (val delay == 7 # 8)%Q /\
    (duration s1 + duration s2 + duration s3 == 6)%Q.
Proof.
  eexists _, _, _, _, _. split; [vm_compute; reflexivity|].
  split; [vm_compute; reflexivity|]. split; [vm_compute; reflexivity|].
  split; vm_compute; reflexivity.
Qed.

(** C7, as the code has it. For a draw r of random.random() in [0, 1), the
    delay of /api/slow is the double 0.5 + (2.0 - 0.5) * r and lies in
    [0.5, 2.0); the outer span encloses three step spans, which call
    time.sleep with delay * 0.3, delay * 0.4 and delay * 0.3 in this order;
    these three sleep times add up to the delay with an error of at most
    3 * 2^-54; the response echoes the delay as delay_seconds.  (How long
    the step spans last is read from the clock.) *)
Theorem slow_delay_and_steps (w : world) :
  (0 <=? rng w (draws w))%float = true ->
  (rng w (draws w) <? 1)%float = true ->
  exists delay : float,
    delay = (0.5 + (2.0 - 0.5) * rng w (draws w))%float /\
    (0.5 <=? delay)%float = true /\ (delay <? 2.0)%float = true /\
    fst (serve ApiSlow w) =
      Response 200 (JDict [("message", JStr "Slow response completed");
                           ("delay_seconds", JFloat delay)]) /\
    map (fun s => (span_name s, span_parent s)) (opened ApiSlow w) =
      [("slow_operation", current w);
       ("step_1_processing", Some (length (spans w)));
       ("step_2_processing", Some (length (spans w)));
       ("step_3_processing", Some (length (spans w)))] /\
    performed ApiSlow w =
      (let n := length (spans w) in
       [SpanStarted n;
        SpanStarted (n + 1); Slept (delay * 0.3); SpanEnded (n + 1);
        SpanStarted (n + 2); Slept (delay * 0.4); SpanEnded (n + 2);
        SpanStarted (n + 3); Slept (delay * 0.3); SpanEnded (n + 3);
        SpanEnded n]) /\
    (Qabs (val (delay * 0.3) + val (delay * 0.4) + val (delay * 0.3) - val delay)
       <= 3 # 2 ^ 54)%Q.
Proof.
  intros H0 H1.
  destruct (uniform_half_two _ H0 H1) as (Hd & Hlow & Hup & Hleb & Hltb).
  destruct (step_sleeps_sum _ Hd Hlow Hup) as (_ & _ & Hsum).
  destruct (opened_return ApiSlow w _ _ _ _ _ (slow_endpoint_run w)) as (-> & -> & ->).
  eexists. split; [reflexivity|]. split; [exact Hleb|]. split; [exact Hltb|].
  split; [reflexivity|]. split; [reflexivity|]. split; [reflexivity|]. exact Hsum.
Qed.

Lemma slow_delay_and_steps_witness :
  exists delay : float,
    (0.5 <=? delay)%float = true /\ (delay <? 2.0)%float = true /\
    dict_get "delay_seconds" (resp_body (fst (serve ApiSlow (bare 0.25)))) = Some (JFloat delay) /\
    sleeps (performed ApiSlow (bare 0.25)) = [delay * 0.3; delay * 0.4; delay * 0.3]%float.
Proof.
  destruct (slow_delay_and_steps (bare 0.25)) as (delay & _ & Hlow & Hup & Hresp & _ & Hperf & _).
  - reflexivity.
  - reflexivity.
  - exists delay. split; [exact Hlow|]. split; [exact Hup|]. rewrite Hresp, Hperf.
    split; reflexivity.
Defined.

(** ** Every route at once *)

(** The span of /api/error as the view function leaves it when it raises. *)
Definition failed_span (w : world) : span :=
  Span "error_operation" (current w) (at_ w 0) (Some (at_ w 3))
    (mkStatus ERROR (Some "ValueError: Random error occurred!"))
    (<["error" := VBool true]>
     (<["operation" := VStr "risky_operation"]>
     (<["endpoint" := VStr "/api/error"]> ∅)))
    [Event "Error triggered" (at_ w 1) {["error_type" := VStr "ValueError"]};
     Event "exception" (at_ w 2) (exception_payload random_error)].

(** A failing request to /api/error, the error handler included. *)
Lemma serve_failure (w : world) :
  fails w = true ->
  serve ApiError w =
  (error_response random_error,
   let n := length (spans w) in
   match current w with
   | Some id =>
       World (clock w) (5 + ticks w) (rng w) (1 + draws w)
             (alter (record_error random_error (at_ w 4)) id (spans w ++ [failed_span w]))
             (current w) (journal w ++ [SpanStarted n; SpanEnded n])
   | None => after w 4 1 [failed_span w] [SpanStarted n; SpanEnded n]
   end).
Proof.
  intros Hdraw.
  rewrite (serve_raise ApiError _ _ _ (error_endpoint_raise w Hdraw)), handle_exception_run.
  unfold failed_span. cbn [snd after current]. destruct (current w); reflexivity.
Qed.

(** Case analysis on the route, with the run of its view function: in
    every case [Hserve] is the request as a whole, [Hopen] its spans and
    [Hperf] its effects. *)
Ltac by_route r w :=
  destruct r;
  [ destruct (opened_return Home w _ _ _ _ _ (home_run w)) as (Hserve & Hopen & Hperf)
  | destruct (opened_return Health w _ _ _ _ _ (health_run w)) as (Hserve & Hopen & Hperf)
  | destruct (opened_return ApiUsers w _ _ _ _ _ (get_users_run w)) as (Hserve & Hopen & Hperf)
  | destruct (opened_return ApiOrders w _ _ _ _ _ (get_orders_run w)) as (Hserve & Hopen & Hperf)
  | destruct (opened_return ApiSlow w _ _ _ _ _ (slow_endpoint_run w)) as (Hserve & Hopen & Hperf)
  | destruct (fails w) eqn:Hdraw;
    [ pose proof (serve_failure w Hdraw) as Hserve;
      destruct (opened_raise ApiError w _ _ _ _ _ (error_endpoint_raise w Hdraw))
        as (_ & Hperf & Hopen)
    | destruct (opened_return ApiError w _ _ _ _ _ (error_endpoint_return w Hdraw))
        as (Hserve & Hopen & Hperf) ] ].

(** X1. The status code of a response is 200, except for the 500 of a failing
    request to /api/error. *)
Theorem status_500_only_on_failure (r : route) (w : world) :
  (resp_status (fst (serve r w)) = 200 \/ resp_status (fst (serve r w)) = 500) /\
  (resp_status (fst (serve r w)) = 500 <-> r = ApiError /\ fails w = true).
Proof.
  by_route r w; rewrite Hserve; cbn [fst resp_status error_response].
  all: split; [first [left; reflexivity | right; reflexivity]|].
  all: split; [try discriminate | try (intros [H1 H2]; discriminate)]; auto.
Qed.

(** X2. The response does not depend on what the tracer holds: the span store,
    the current span and the journal of the world can be replaced by any
    others. *)
Theorem response_ignores_tracer (r : route) (w : world)
    (sp : list span) (cur : option nat) (jn : list effect) :
  fst (serve r (World (clock w) (ticks w) (rng w) (draws w) sp cur jn)) = fst (serve r w).
Proof.
  set (w2 := World (clock w) (ticks w) (rng w) (draws w) sp cur jn).
  assert (Hfails : fails w2 = fails w) by reflexivity.
  by_route r w; rewrite Hserve; clear Hserve Hopen Hperf.
  - destruct (opened_return Home w2 _ _ _ _ _ (home_run w2)) as (-> & _). reflexivity.
  - destruct (opened_return Health w2 _ _ _ _ _ (health_run w2)) as (-> & _). reflexivity.
  - destruct (opened_return ApiUsers w2 _ _ _ _ _ (get_users_run w2)) as (-> & _). reflexivity.
  - destruct (opened_return ApiOrders w2 _ _ _ _ _ (get_orders_run w2)) as (-> & _). reflexivity.
  - destruct (opened_return ApiSlow w2 _ _ _ _ _ (slow_endpoint_run w2)) as (-> & _). reflexivity.
  - rewrite (serve_failure w2 Hfails). reflexivity.
  - destruct (opened_return ApiError w2 _ _ _ _ _ (error_endpoint_return w2 Hfails)) as (-> & _).
    reflexivity.
Qed.

(** The number of calls of [random.random] and of [time.sleep] in a request. *)
Definition draws_of (r : route) : nat :=
  match r with
  | Home | Health => 0
  | _ => 1
  end.

Definition sleeps_of (r : route) : nat :=
  match r with
  | ApiUsers | ApiOrders => 1
  | ApiSlow => 3
  | _ => 0
  end.

(** X3. / and /health draw no random number and never sleep; /api/error draws
    one number and never sleeps, on both branches; /api/users and
    /api/orders draw one number and sleep once, /api/slow draws one number
    and sleeps three times.  The generator itself is left alone. *)
Theorem draws_and_sleeps_per_request (r : route) (w : world) :
  draws (snd (serve r w)) = draws_of r + draws w /\
  rng (snd (serve r w)) = rng w /\
  length (sleeps (performed r w)) = sleeps_of r.
Proof.
  by_route r w; rewrite Hserve, Hperf; cbn [snd after draws rng draws_of sleeps_of].
  all: try (split; [reflexivity|]; split; reflexivity).
  destruct (current w); split; try reflexivity; split; reflexivity.
Qed.

(** Spans are ended innermost first: reading the journal, a stack of the
    open spans. *)
Fixpoint nesting (stack : list nat) (eff : list effect) : option (list nat) :=
  match eff with
  | [] => Some stack
  | SpanStarted id :: eff' => nesting (id :: stack) eff'
  | SpanEnded id :: eff' =>
      match stack with
      | top :: rest => if Nat.eqb top id then nesting rest eff' else None
      | [] => None
      end
  | Slept _ :: eff' => nesting stack eff'
  end.

(** The depth of the stack of open spans at every call of [time.sleep]. *)
Fixpoint sleep_depths (depth : nat) (eff : list effect) : list nat :=
  match eff with
  | [] => []
  | SpanStarted _ :: eff' => sleep_depths (S depth) eff'
  | SpanEnded _ :: eff' => sleep_depths (pred depth) eff'
  | Slept _ :: eff' => depth :: sleep_depths depth eff'
  end.

Lemma nesting_app (eff1 eff2 : list effect) :
  forall stack, nesting stack (eff1 ++ eff2) = nesting stack eff1 ≫= fun st => nesting st eff2.
Proof.
  induction eff1 as [|[id|id|d] eff1 IH]; intros stack; cbn [app nesting].
  - reflexivity.
  - apply IH.
  - destruct stack as [|top rest]; [reflexivity|]. destruct (Nat.eqb top id); [apply IH | reflexivity].
  - apply IH.
Qed.

Lemma performed_nesting (r : route) (w : world) (stack : list nat) :
  nesting stack (performed r w) = Some stack.
Proof.
  by_route r w; rewrite Hperf; cbn [nesting]; rewrite ?Nat.eqb_refl; reflexivity.
Qed.

(** X4. On every route and both exits, a request ends its spans in the reverse
    order of their starts and leaves the spans that were open before as
    they were; every sleep happens inside a child span of the request's
    root span. *)
Theorem spans_nest_properly (r : route) (w : world) (stack : list nat) :
  nesting stack (performed r w) = Some stack /\
  Forall (fun d => d = 2) (sleep_depths 0 (performed r w)).
Proof.
  split; [apply performed_nesting|].
  by_route r w; rewrite Hperf; cbn [sleep_depths pred]; repeat constructor.
Qed.

(** X5. The first span a request opens is a child of the span that was current
    when the request came in; every other span is a child of that first
    span. *)
Theorem request_spans_form_tree (r : route) (w : world) :
  map span_parent (opened r w) =
    current w :: replicate (spans_of r - 1) (Some (length (spans w))).
Proof.
  by_route r w; rewrite Hopen; try reflexivity.
  case_decide; reflexivity.
Qed.

(** ** What a request leaves alone *)

(** X6. A request changes no span that was there before it, with one
    exception: the error handler writes to the span that is current when a
    request to /api/error fails. *)
Theorem earlier_spans_kept (r : route) (w : world) (id : nat) (s : span) :
  spans w !! id = Some s ->
  (r = ApiError -> fails w = true -> current w <> Some id) ->
  spans (snd (serve r w)) !! id = Some s.
Proof.
  intros Hs Hcur. by_route r w; rewrite Hserve; cbn [snd after spans].
  all: try (apply lookup_app_l_Some; exact Hs).
  destruct (current w) as [c|]; cbn [after spans].
  - rewrite list_lookup_alter_ne by (intros ->; now apply Hcur).
    apply lookup_app_l_Some. exact Hs.
  - apply lookup_app_l_Some. exact Hs.
Qed.

Lemma earlier_spans_kept_witness :
  spans (snd (serve ApiError (World ticking 0 (fun _ => 0.25%float) 0
                                [server_span; server_span] (Some 1) []))) !! 0 =
    Some server_span.
Proof.
  apply earlier_spans_kept.
  - reflexivity.
  - intros _ _. discriminate.
Defined.

(** ** Times of spans and events *)

(** X7. Every event of a span opened by a request carries a time between the
    start and the end of its span, provided the clock is not set back. *)
Theorem events_within_span (r : route) (w : world) (k : nat) (s : span) (e : event) (t : float) :
  steady w -> current_valid w ->
  opened r w !! k = Some s -> end_time s = Some t -> In e (events s) ->
  (start_time s <=? ev_time e)%float = true /\ (ev_time e <=? t)%float = true.
Proof.
  intros Hsteady Hvalid Hs Ht He.
  assert (Hin : forall a b c, a <= b <= c ->
            (at_ w a <=? at_ w b)%float = true /\ (at_ w b <=? at_ w c)%float = true).
  { intros a b c Habc. split; apply Hsteady; lia. }
  by_route r w; rewrite Hopen in Hs.
  6: (case_decide as Hc; [apply Hvalid in Hc; lia|]).
  all: pick Hs; unfold db_span, step_span in *.
  all: cbn [end_time] in Ht; injection Ht as <-; cbn [events In] in He.
  all: cbn [start_time].
  all: repeat (destruct He as [<-|He]); try contradiction; cbn [ev_time]; apply Hin; lia.
Qed.

Lemma events_within_span_witness :
  exists s e t,
    opened ApiSlow (bare 0.25) !! 0 = Some s /\ end_time s = Some t /\
    last (events s) = Some e /\ ev_name e = "Slow operation completed" /\
    (start_time s <=? ev_time e)%float = true /\ (ev_time e <=? t)%float = true.
Proof.
  assert (Hs : exists s, opened ApiSlow (bare 0.25) !! 0 = Some s /\
                         end_time s = Some (ticking 12) /\
                         last (events s) = Some (Event "Slow operation completed" (ticking 11) ∅)).
  { eexists. split; [vm_compute; reflexivity|]. split; reflexivity. }
  destruct Hs as (s & Hs & Ht & He).
  exists s, (Event "Slow operation completed" (ticking 11) ∅), (ticking 12).
  split; [exact Hs|]. split; [exact Ht|]. split; [exact He|]. split; [reflexivity|].
  apply (events_within_span ApiSlow (bare 0.25) 0 s).
  - apply bare_steady.
  - intros id [=].
  - exact Hs.
  - exact Ht.
  - apply last_Some_elem_of in He. now apply list_elem_of_In.
Defined.

(** X8. Of two spans opened by the same request, the one opened first starts
    first; a child span ends before the root span of the request does, and
    a child span ends before the next child starts.  All this provided the
    clock is not set back. *)
Theorem request_spans_in_time (r : route) (w : world) (j k : nat) (sj sk : span) (tj tk : float) :
  steady w -> j < k ->
  opened r w !! j = Some sj -> opened r w !! k = Some sk ->
  end_time sj = Some tj -> end_time sk = Some tk ->
  (start_time sj <=? start_time sk)%float = true /\
  (if j is 0 then (tk <=? tj)%float = true else (tj <=? start_time sk)%float = true).
Proof.
  intros Hsteady Hjk Hj Hk Htj Htk.
  assert (Hle : forall a b, a <= b -> (at_ w a <=? at_ w b)%float = true).
  { intros a b Hab. apply Hsteady. lia. }
  by_route r w; rewrite Hopen in Hj, Hk.
  6: { case_decide; pick Hj; pick Hk; lia. }
  all: pick Hj; pick Hk; try lia; unfold db_span, step_span in *.
  all: cbn [end_time] in Htj, Htk; injection Htj as <-; injection Htk as <-.
  all: cbn [start_time]; split; apply Hle; lia.
Qed.

Lemma request_spans_in_time_witness :
  exists s2 s3 t2,
    opened ApiSlow (bare 0.25) !! 2 = Some s2 /\ opened ApiSlow (bare 0.25) !! 3 = Some s3 /\
    span_name s2 = "step_2_processing" /\ span_name s3 = "step_3_processing" /\
    end_time s2 = Some t2 /\ (t2 <=? start_time s3)%float = true.
Proof.
  assert (H2 : opened ApiSlow (bare 0.25) !! 2 =
               Some (step_span 2 "step_2_processing" "Step 2 completed" 0
                       (ticking 5) (ticking 6) (ticking 7)))
    by (vm_compute; reflexivity).
  assert (H3 : opened ApiSlow (bare 0.25) !! 3 =
               Some (step_span 3 "step_3_processing" "Step 3 completed" 0
                       (ticking 8) (ticking 9) (ticking 10)))
    by (vm_compute; reflexivity).
  destruct (request_spans_in_time ApiSlow (bare 0.25) 2 3 _ _ (ticking 7) (ticking 10)
              (bare_steady 0.25) ltac:(lia) H2 H3 eq_refl eq_refl) as [_ Hseq].
  eexists _, _, _. split; [exact H2|]. split; [exact H3|].
  split; [reflexivity|]. split; [reflexivity|]. split; [reflexivity|]. exact Hseq.
Defined.

(** X9. The timestamp of a /health response is read while the span of the
    request is open: it lies between the start and the end of that span,
    provided the clock is not set back. *)
Theorem health_timestamp_within_span (w : world) :
  steady w ->
  exists s t ts,
    opened Health w = [s] /\ span_name s = "health_check" /\
    end_time s = Some t /\
    fst (serve Health w) =
      Response 200 (JDict [("status", JStr "healthy"); ("timestamp", JFloat ts)]) /\
    (start_time s <=? ts)%float = true /\ (ts <=? t)%float = true.
Proof.
  intros Hsteady.
  destruct (opened_return Health w _ _ _ _ _ (health_run w)) as (-> & -> & _).
  eexists _, _, _. split; [reflexivity|]. split; [reflexivity|]. split; [reflexivity|].
  split; [reflexivity|]. cbn [start_time]. split; apply Hsteady; lia.
Qed.

Lemma health_timestamp_within_span_witness :
  exists s t ts,
    opened Health (bare 0.25) = [s] /\ end_time s = Some t /\
    timestamp_of (fst (serve Health (bare 0.25))) = Some ts /\
    (start_time s <=? ts)%float = true /\ (ts <=? t)%float = true.
Proof.
  destruct (health_timestamp_within_span (bare 0.25) (bare_steady 0.25))
    as (s & t & ts & Hs & _ & Ht & Hresp & Hlo & Hhi).
  exists s, t, ts. rewrite Hresp. repeat split; assumption.
Defined.

(** ** What the spans record *)

(** X10. The response of /api/orders carries the three fixed orders and the
    count 3, the length of the list; the total is not part of the response;
    the count is also the attribute order.count of the span and the count
    of the completion event. *)
Theorem orders_count_matches (w : world) :
  exists (os : list json) (s : span) (ev : event),
    fst (serve ApiOrders w) =
      Response 200 (JDict [("orders", JList os); ("count", JInt (len os))]) /\
    os = map order_json orders /\ len os = 3%Z /\ len orders = 3%Z /\
    dict_get "total_value" (resp_body (fst (serve ApiOrders w))) = None /\
    opened ApiOrders w !! 0 = Some s /\
    attributes s !! "order.count" = Some (VInt (len os)) /\
    last (events s) = Some ev /\
    ev_attributes ev !! "count" = Some (VInt (len os)).
Proof.
  destruct (opened_return ApiOrders w _ _ _ _ _ (get_orders_run w)) as (-> & -> & _).
  exists (map order_json orders). eexists _, _.
  split; [reflexivity|]. split; [reflexivity|]. split; [reflexivity|]. split; [reflexivity|].
  split; [reflexivity|]. split; [reflexivity|].
  cbn [attributes events last ev_attributes].
  split; [rewrite lookup_insert_ne by discriminate; apply lookup_insert_eq|].
  split; [reflexivity|]. apply lookup_insert_eq.
Qed.

(** X11. The count in the response of /api/users is also the attribute
    user.count of the span and the count of its completion event. *)
Theorem users_count_recorded (w : world) :
  exists (n : Z) (s : span) (ev : event),
    dict_get "count" (resp_body (fst (serve ApiUsers w))) = Some (JInt n) /\
    n = len users /\
    opened ApiUsers w !! 0 = Some s /\
    span_name s = "get_users" /\
    attributes s !! "user.count" = Some (VInt n) /\
    events s = [ev] /\
    ev_name ev = "Users retrieved successfully" /\
    ev_attributes ev = {["count" := VInt n]}.
Proof.
  destruct (opened_return ApiUsers w _ _ _ _ _ (get_users_run w)) as (-> & -> & _).
  eexists _, _, _.
  split; [reflexivity|]. split; [reflexivity|]. split; [reflexivity|].
  split; [reflexivity|]. split; [apply lookup_insert_eq|].
  split; [reflexivity|]. split; reflexivity.
Qed.

(** X12. The delay that /api/slow reports as delay_seconds is the value of the
    attribute expected_delay_seconds of its span and the delay of the
    event that starts the operation; the three step spans carry the step
    numbers 1, 2 and 3. *)
Theorem slow_delay_recorded (w : world) :
  exists (delay : float) (s : span) (ev : event),
    dict_get "delay_seconds" (resp_body (fst (serve ApiSlow w))) = Some (JFloat delay) /\
    opened ApiSlow w !! 0 = Some s /\
    span_name s = "slow_operation" /\
    attributes s !! "expected_delay_seconds" = Some (VFloat delay) /\
    head (events s) = Some ev /\
    ev_name ev = "Starting slow operation" /\
    ev_attributes ev = {["delay" := VFloat delay]} /\
    map (fun s => attributes s !! "step") (drop 1 (opened ApiSlow w)) =
      [Some (VInt 1); Some (VInt 2); Some (VInt 3)].
Proof.
  destruct (opened_return ApiSlow w _ _ _ _ _ (slow_endpoint_run w)) as (-> & -> & _).
  eexists _, _, _.
  split; [reflexivity|]. split; [reflexivity|]. split; [reflexivity|].
  cbn [attributes events head drop map step_span].
  split; [apply lookup_insert_eq|].
  split; [reflexivity|]. split; [reflexivity|]. split; [reflexivity|].
  rewrite !lookup_insert_eq. reflexivity.
Qed.

(** X13. The span of /api/error carries the attribute error exactly when the
    request fails; endpoint and operation are set on both branches. *)
Theorem error_attribute_marks_failure (w : world) :
  exists s : span,
    opened ApiError w = [s] /\
    span_name s = "error_operation" /\
    attributes s !! "endpoint" = Some (VStr "/api/error") /\
    attributes s !! "operation" = Some (VStr "risky_operation") /\
    attributes s !! "error" = (if fails w then Some (VBool true) else None).
Proof.
  destruct (fails w) eqn:Hdraw.
  - destruct (opened_raise ApiError w _ _ _ _ _ (error_endpoint_raise w Hdraw)) as (_ & _ & ->).
    case_decide; eexists; (split; [reflexivity|]);
      cbn [record_error set_span_status add_span_event span_name attributes].
    all: split; [reflexivity|].
    all: rewrite !lookup_insert_ne by discriminate.
    all: split; [apply lookup_insert_eq|].
    all: split; [rewrite lookup_insert_ne by discriminate|]; apply lookup_insert_eq.
  - destruct (opened_return ApiError w _ _ _ _ _ (error_endpoint_return w Hdraw)) as (_ & -> & _).
    eexists. split; [reflexivity|]. cbn [span_name attributes]. split; [reflexivity|].
    split; [rewrite lookup_insert_ne by discriminate; apply lookup_insert_eq|].
    split; [apply lookup_insert_eq|].
    rewrite !lookup_insert_ne by discriminate. apply lookup_empty.
Qed.

(** ** The error handler on its own *)

(** X14. For every exception the error handler returns the 500 envelope
    with the message of the exception and does not raise; it starts and
    ends no span, draws no random number and does not sleep; it leaves the
    current span where it is and writes to no other span; with no current
    span it changes nothing at all.  To a current span that is still open
    and whose status is not Ok it appends the exception as an event and
    gives the status Error with the message of the exception, and nothing
    else of that span changes. *)
Theorem handle_exception_touches_current_only (e : exn) (w : world) :
  exists w' : world,
    handle_exception e w = (Return (Response 500 (JDict [("error", JStr (str e))])), w') /\
    length (spans w') = length (spans w) /\
    current w' = current w /\ journal w' = journal w /\
    draws w' = draws w /\
    (forall id, current w <> Some id -> spans w' !! id = spans w !! id) /\
    (forall id s, current w = Some id -> spans w !! id = Some s ->
       end_time s = None -> status_code (status s) <> OK ->
       exists s', spans w' !! id = Some s' /\
         span_name s' = span_name s /\ span_parent s' = span_parent s /\
         start_time s' = start_time s /\ end_time s' = end_time s /\
         attributes s' = attributes s /\
         status s' = mkStatus ERROR (Some (str e)) /\
         exists t, events s' = events s ++ [Event "exception" t (exception_payload e)]) /\
    (current w = None -> w' = w).
Proof.
  rewrite handle_exception_run. eexists. split; [reflexivity|].
  destruct (current w) as [c|] eqn:Hc; cbn [spans current journal draws].
  - split; [apply length_alter|]. split; [reflexivity|]. split; [reflexivity|].
    split; [reflexivity|]. split; [|split].
    + intros id Hid. apply list_lookup_alter_ne. congruence.
    + intros id s [= <-] Hs _ _. eexists. split.
      * rewrite list_lookup_alter_eq, Hs. reflexivity.
      * repeat split. eexists. reflexivity.
    + discriminate.
  - repeat split; try discriminate. exact Hc.
Qed.

(** ** Requests served one after the other *)

(** What one request does to the world. *)
Lemma serve_step (r : route) (w : world) :
  length (spans (snd (serve r w))) = length (spans w) + spans_of r /\
  current (snd (serve r w)) = current w /\
  journal (snd (serve r w)) = journal w ++ performed r w /\
  (forall id s, spans w !! id = Some s ->
     exists s', spans (snd (serve r w)) !! id = Some s' /\ end_time s' = end_time s) /\
  (forall id s, length (spans w) <= id -> spans (snd (serve r w)) !! id = Some s ->
     is_Some (end_time s)).
Proof.
  assert (Hnew : forall new id s,
            Forall (fun s => is_Some (end_time s)) new ->
            length (spans w) <= id -> (spans w ++ new) !! id = Some s -> is_Some (end_time s)).
  { intros new id s Hall Hid Hs. rewrite lookup_app_r in Hs by exact Hid.
    rewrite Forall_lookup in Hall. eapply Hall, Hs. }
  by_route r w; rewrite Hperf, Hserve; cbn [snd after spans current journal spans_of].
  all: try (split; [now rewrite length_app|]; split; [reflexivity|]; split; [reflexivity|]; split;
            [ intros id s Hs; exists s; split; [now apply lookup_app_l_Some | reflexivity]
            | intros id s Hid Hs; apply (Hnew _ id s) in Hs; [exact Hs | | exact Hid];
              unfold db_span, step_span; repeat constructor; eexists; reflexivity ]).
  destruct (current w) as [c|] eqn:Hc; cbn [after spans current journal].
  - split; [now rewrite length_alter, length_app|]. split; [reflexivity|].
    split; [reflexivity|]. split.
    + intros id s Hs. destruct (decide (c = id)) as [->|Hne].
      * eexists. split.
        -- rewrite list_lookup_alter_eq, (lookup_app_l_Some _ _ _ _ Hs). reflexivity.
        -- reflexivity.
      * exists s. split; [|reflexivity].
        rewrite list_lookup_alter_ne by exact Hne. now apply lookup_app_l_Some.
    + intros id s Hid Hs. destruct (decide (c = id)) as [->|Hne].
      * rewrite list_lookup_alter_eq in Hs.
        destruct ((spans w ++ [failed_span w]) !! id) as [s0|] eqn:Hs0; [|discriminate].
        injection Hs as <-. apply (Hnew _ id s0) in Hs0; [exact Hs0 | | exact Hid].
        repeat constructor. eexists. reflexivity.
      * rewrite list_lookup_alter_ne in Hs by exact Hne.
        apply (Hnew _ id s) in Hs; [exact Hs | | exact Hid].
        repeat constructor. eexists. reflexivity.
  - split; [now rewrite length_app|]. split; [exact Hc|]. split; [reflexivity|]. split.
    + intros id s Hs. exists s. split; [now apply lookup_app_l_Some | reflexivity].
    + intros id s Hid Hs. apply (Hnew _ id s) in Hs; [exact Hs | | exact Hid].
      repeat constructor. eexists. reflexivity.
Qed.

(** Later requests keep every span and its end time. *)
Lemma serve_all_keeps (rs : list route) :
  forall (w : world) (id : nat) (s : span),
    spans w !! id = Some s ->
    exists s', spans (snd (serve_all rs w)) !! id = Some s' /\ end_time s' = end_time s.
Proof.
  induction rs as [|r rs IH]; intros w id s Hs; cbn [serve_all].
  - exists s. split; [exact Hs | reflexivity].
  - destruct (serve_step r w) as (_ & _ & _ & Hkeep & _).
    destruct (serve r w) as [resp w1]. cbn [snd] in Hkeep.
    destruct (Hkeep id s Hs) as (s1 & Hs1 & Hend1).
    destruct (IH w1 id s1 Hs1) as (s' & Hs' & Hend').
    destruct (serve_all rs w1) as [resps w2]. cbn [snd] in *.
    exists s'. split; [exact Hs' | congruence].
Qed.

(** X15. After any sequence of requests there is one response per request, the
    store holds the spans of all of them, the current span is the one from
    before the first request, every span opened in between is ended, and
    the spans were ended innermost first. *)
Theorem no_span_left_open (rs : list route) (w : world) :
  length (fst (serve_all rs w)) = length rs /\
  length (spans (snd (serve_all rs w))) = length (spans w) + sum_list (spans_of <$> rs) /\
  current (snd (serve_all rs w)) = current w /\
  (forall id s, length (spans w) <= id -> spans (snd (serve_all rs w)) !! id = Some s ->
     is_Some (end_time s)) /\
  (exists eff, journal (snd (serve_all rs w)) = journal w ++ eff /\
     forall stack, nesting stack eff = Some stack).
Proof.
  revert w. induction rs as [|r rs IH]; intros w; cbn [serve_all fmap list_fmap sum_list length].
  - split; [reflexivity|]. split; [cbn; lia|]. split; [reflexivity|]. split.
    + intros id s Hid Hs. apply lookup_lt_Some in Hs. cbn in Hs. lia.
    + exists []. split; [now rewrite app_nil_r | reflexivity].
  - destruct (serve_step r w) as (Hlen & Hcur & Hjn & Hkeep & Hnew).
    pose proof (performed_nesting r w) as Hnest.
    destruct (serve r w) as [resp w1]. cbn [snd] in *.
    destruct (IH w1) as (IHn & IHlen & IHcur & IHnew & eff & IHjn & IHnest).
    pose proof (serve_all_keeps rs w1) as Hlater.
    destruct (serve_all rs w1) as [resps w2]. cbn [fst snd length] in *.
    split; [now rewrite IHn|]. split; [rewrite IHlen, Hlen; cbn; lia|].
    split; [congruence|]. split.
    + intros id s Hid Hs. destruct (decide (id < length (spans w1))) as [Hlt|Hge].
      * destruct (lookup_lt_is_Some_2 _ _ Hlt) as [s1 Hs1].
        destruct (Hlater id s1 Hs1) as (s' & Hs' & Hend).
        rewrite Hs in Hs'. injection Hs' as <-. rewrite Hend. now apply (Hnew id).
      * apply (IHnew id); [lia | exact Hs].
    + exists (performed r w ++ eff). split; [rewrite IHjn, Hjn; now rewrite app_assoc|].
      intros stack. rewrite nesting_app, Hnest. apply IHnest.
Qed.

(** ** The simulated database queries *)

Section Uniform.

Local Open Scope Q_scope.

(** Rounding does not go below a double that the exact value is above,
    also when the exact value lies in a higher binade. *)
Lemma rounds_ge_double (p V : Q) (c t k x : Z) :
  rounds_to p V -> p < pow2 x ->
  (-1074 <= t)%Z -> (0 <= k <= 53)%Z -> (x - 53 <= t + k)%Z -> (c <= 2 ^ 53)%Z ->
  inject_Z c * pow2 t <= p -> inject_Z c * pow2 t <= V.
Proof.
  intros Hround Hx Ht Hk Hxk Hc Hp.
  destruct (Qlt_le_dec p (pow2 (t + 53))) as [Hlow|Hhigh].
  - apply (rounds_ge p V c t (t + 53) Hround Hlow); [lia | exact Hp].
  - apply Qle_trans with (pow2 (53 + t)).
    + rewrite (pow2_scaled 53 t) by lia. apply scaled_le. exact Hc.
    + replace (53 + t)%Z with ((53 - k) + (t + k))%Z by lia.
      rewrite (pow2_scaled (53 - k) (t + k)) by lia.
      apply (rounds_ge p V _ (t + k) x Hround Hx); [lia|].
      rewrite <- (pow2_scaled (53 - k) (t + k)) by lia.
      now replace (53 - k + (t + k))%Z with (t + 53)%Z by lia.
Qed.

(** [a + w * r] for a draw [r] in [0, 1), where [w] is the double [b - a]:
    the result is at least [a] and less than [b], given what the doubles
    [a], [w] and [b] are. *)
Lemma uniform_between (a w b r : float) (ma ta mw tw x k : Z) :
  nonneg a -> nonneg w -> normal w -> nonneg b ->
  0 < val a ->
  val a == inject_Z ma * pow2 ta -> (ma <= 2 ^ 53)%Z -> (-1074 <= ta)%Z ->
  (0 <= k <= 53)%Z -> (x - 53 <= ta + k)%Z ->
  val w == inject_Z mw * pow2 tw -> (2 ^ 52 + 1 <= mw < 2 ^ 53)%Z -> (-1074 <= tw)%Z ->
  val a + val w < pow2 x -> (x <= 1023)%Z -> (-1074 <= x - 53)%Z ->
  val a + inject_Z (mw - 1) * pow2 tw + pow2 (x - 53) * (1 # 2) < val b ->
  (0 <=? r)%float = true -> (r <? 1)%float = true ->
  let d := (a + w * r)%float in
  nonneg d /\ val a <= val d /\ val d < val b /\
  (a <=? d)%float = true /\ (d <? b)%float = true.
Proof.
  intros Ha Hw Hnormal Hb Ha0 Hva Hma Hta Hk Hxk Hvw Hmw Htw Hsum Hx Hx' Hup H0 H1. cbv zeta.
  destruct (unit_interval r H0 H1) as (Hr & Hr0 & Hr1).
  assert (Hr1' : val r <= inject_Z (2 ^ 53 - 1) * pow2 (-53)).
  { apply (below_grid_point r (2 ^ 53) (-53) Hr); [lia|].
    assert (inject_Z (2 ^ 53) * pow2 (-53) == 1) by reflexivity. lra. }
  assert (Hc1 : inject_Z (2 ^ 53 - 1) * pow2 (-53) == 9007199254740991 # 9007199254740992)
    by reflexivity.
  pose proof (pow2_pos tw) as HP.
  assert (HM : inject_Z (2 ^ 52 + 1) <= inject_Z mw) by (rewrite <- Zle_Qle; lia).
  assert (HM' : inject_Z mw <= inject_Z (2 ^ 53)) by (rewrite <- Zle_Qle; lia).
  change (inject_Z (2 ^ 52 + 1)) with (4503599627370497 # 1) in HM.
  change (inject_Z (2 ^ 53)) with (9007199254740992 # 1) in HM'.
  assert (HMP : (4503599627370497 # 1) * pow2 tw <= inject_Z mw * pow2 tw)
    by (apply Qmult_le_compat_r; [exact HM | lra]).
  assert (HMP' : inject_Z mw * pow2 tw <= (9007199254740992 # 1) * pow2 tw)
    by (apply Qmult_le_compat_r; [exact HM' | lra]).
  assert (Hw0 : 0 < val w) by lra.
  assert (Hbig : pow2 x <= pow2 1023) by (apply pow2_le; exact Hx).
  assert (Hwr : val w * val r <= val w * (9007199254740991 # 9007199254740992))
    by (apply Qmult_le_l; [exact Hw0 | lra]).
  assert (Hwr0 : 0 <= val w * val r) by (apply Qmult_le_0_compat; lra).
  (* the product *)
  destruct (mul_rounds w r) as [Hv Hround]; [exact Hw | exact Hr | left; exact Hnormal | lra |].
  set (v := (w * r)%float) in *.
  assert (Hp2 : val w * val r < pow2 (tw + 53)).
  { replace (tw + 53)%Z with (53 + tw)%Z by lia. rewrite (pow2_scaled 53 tw) by lia.
    change (inject_Z (2 ^ 53)) with (9007199254740992 # 1). lra. }
  pose proof (rounds_err _ _ tw (tw + 53) Hround Hp2 ltac:(lia)) as Herr.
  apply Qabs_Qle_condition in Herr.
  assert (Hvw' : val v < inject_Z mw * pow2 tw) by lra.
  apply (below_grid_point v mw tw Hv ltac:(lia)) in Hvw'.
  pose proof (nonneg_value v Hv) as Hv0.
  assert (Hstep : inject_Z (mw - 1) * pow2 tw <= inject_Z mw * pow2 tw)
    by (apply scaled_le; lia).
  (* the sum *)
  destruct (add_rounds a v) as [Hd Hadd]; [exact Ha | exact Hv | lra |].
  set (d := (a + v)%float) in *.
  assert (Hs2 : val a + val v < pow2 x) by lra.
  pose proof (rounds_err _ _ (x - 53) x Hadd Hs2 ltac:(lia)) as Herr2.
  apply Qabs_Qle_condition in Herr2.
  assert (Hlow : inject_Z ma * pow2 ta <= val d).
  { apply (rounds_ge_double _ _ ma ta k x Hadd Hs2); try assumption. lra. }
  split; [exact Hd|]. split; [lra|]. split; [lra|]. split.
  - apply leb_of_value; [exact Ha | exact Hd | exact Ha0 | lra].
  - apply ltb_of_value; [exact Hd | exact Hb | lra | lra].
Qed.

(** [random.uniform(0.01, 0.05)] *)
Lemma uniform_users (r : float) :
  (0 <=? r)%float = true -> (r <? 1)%float = true ->
  let delay := (0.01 + (0.05 - 0.01) * r)%float in
  nonneg delay /\ val 0.01 <= val delay /\ val delay < val 0.05 /\
  (0.01 <=? delay)%float = true /\ (delay <? 0.05)%float = true.
Proof.
  intros H0 H1.
  apply (uniform_between 0.01 (0.05 - 0.01) 0.05 r
           5764607523034235 (-59) 5764607523034235 (-57) (-4) 2);
    try exact H0; try exact H1; try exact I; try lia; try reflexivity.
  exists 5764607523034235%positive, (-57)%Z. split; reflexivity.
Qed.

(** [random.uniform(0.02, 0.08)] *)
Lemma uniform_orders (r : float) :
  (0 <=? r)%float = true -> (r <? 1)%float = true ->
  let delay := (0.02 + (0.08 - 0.02) * r)%float in
  nonneg delay /\ val 0.02 <= val delay /\ val delay < val 0.08 /\
  (0.02 <=? delay)%float = true /\ (delay <? 0.08)%float = true.
Proof.
  intros H0 H1.
  apply (uniform_between 0.02 (0.08 - 0.02) 0.08 r
           5764607523034235 (-58) 8646911284551352 (-57) (-3) 2);
    try exact H0; try exact H1; try exact I; try lia; try reflexivity.
  exists 8646911284551352%positive, (-57)%Z. split; reflexivity.
Qed.

End Uniform.

Section Milliseconds.

Local Open Scope Z_scope.

(** Rounding to the nearest integer stays between integer bounds. *)
Lemma half_even_bounds (n d a b : Z) :
  0 < d -> a * d <= n -> n <= b * d -> a <= half_even n d <= b.
Proof.
  intros Hd Ha Hb. unfold half_even.
  pose proof (Z.div_mod n d ltac:(lia)) as Hn.
  pose proof (Z.mod_pos_bound n d Hd) as Hr.
  assert (Hq : a <= n / d) by (apply Z.div_le_lower_bound; lia).
  assert (Hq' : n / d <= b) by (apply Z.div_le_upper_bound; lia).
  assert (Hup : 0 < n mod d -> n / d + 1 <= b) by nia.
  destruct (2 * (n mod d) <? d) eqn:H1; [lia|].
  apply Z.ltb_ge in H1.
  destruct (d <? 2 * (n mod d)) eqn:H2; [lia|].
  destruct (Z.even (n / d)); lia.
Qed.

(** The doubles nearest to the decimals with two places from [lo]
    hundredths on, [count] of them, lie between [L] and [H]. *)
Definition cents_between (lo count : Z) (L H : float) : bool :=
  forallb (fun k =>
    let q := SF2Prim (SFdiv prec emax (S754_finite false (Z.to_pos k) 0)
                                      (S754_finite false 100 0)) in
    (L <=? q)%float && (q <=? H)%float) (seqZ lo count).

Lemma cents_between_spec (lo count : Z) (L H : float) (n : positive) :
  cents_between lo count L H = true ->
  lo <= Z.pos n < lo + count ->
  let q := SF2Prim (SFdiv prec emax (S754_finite false n 0) (S754_finite false 100 0)) in
  (L <=? q)%float = true /\ (q <=? H)%float = true.
Proof.
  unfold cents_between. intros Hall Hn. rewrite forallb_forall in Hall.
  specialize (Hall (Z.pos n)). cbn [Z.to_pos] in Hall.
  apply andb_prop. apply Hall. apply list_elem_of_In, elem_of_seqZ. lia.
Qed.

Lemma cents_10_50 : cents_between 1000 4001 10 50 = true.
Proof. vm_compute. reflexivity. Qed.

Lemma cents_20_80 : cents_between 2000 6001 20 80 = true.
Proof. vm_compute. reflexivity. Qed.

Local Open Scope Q_scope.

Lemma integer_on_grid (a e : Z) :
  (e <= 0)%Z -> inject_Z (a * 2 ^ (- e)) * pow2 e == inject_Z a.
Proof.
  intros He. rewrite scale_pow2 by lia. replace (- e + e)%Z with 0%Z by lia.
  change (pow2 0) with 1. ring.
Qed.

(** A double between the integers [L] and [H] has between [100 * L] and
    [100 * H] hundredths. *)
Lemma hundredths_between (x : float) (L H : Z) :
  nonneg x -> (1 <= L)%Z -> (H < 2 ^ 52)%Z ->
  inject_Z L <= val x -> val x <= inject_Z H ->
  exists m e n,
    Prim2SF x = S754_finite false m e /\
    hundredths m e = Z.pos n /\ (100 * L <= Z.pos n <= 100 * H)%Z.
Proof.
  intros Hx HL HH Hlo Hhi.
  assert (H0 : 0 < val x).
  { apply Qlt_le_trans with (inject_Z L); [|exact Hlo].
    change 0 with (inject_Z 0). rewrite <- Zlt_Qlt. lia. }
  destruct (positive_finite x Hx H0) as (m & e & E & B).
  rewrite (value_finite _ _ _ E) in Hlo, Hhi.
  assert (He : (e < 0)%Z).
  { destruct (Z.lt_ge_cases e 0) as [Hlt|Hge]; [exact Hlt | exfalso].
    apply bounded_canonical in B as [Hcan _].
    destruct (digits_bounds m) as [Hdig _].
    assert (Hd : Z.pos (digits2_pos m) = 53%Z) by lia. rewrite Hd in Hdig.
    assert (H1 : 1 <= pow2 e) by (change 1 with (pow2 0); apply pow2_le; lia).
    assert (Hm : inject_Z (Z.pos m) * 1 <= inject_Z (Z.pos m) * pow2 e).
    { apply Qmult_le_l; [|exact H1]. change 0 with (inject_Z 0). rewrite <- Zlt_Qlt. lia. }
    assert (Hle : inject_Z (Z.pos m) <= inject_Z H) by lra.
    rewrite <- Zle_Qle in Hle. change (53 - 1)%Z with 52%Z in Hdig. lia. }
  rewrite <- (integer_on_grid L e) in Hlo by lia.
  rewrite <- (integer_on_grid H e) in Hhi by lia.
  apply scaled_le in Hlo, Hhi.
  assert (Hd : (0 < 2 ^ (- e))%Z) by (apply Z.pow_pos_nonneg; lia).
  pose proof (half_even_bounds (Z.pos m * 100) (2 ^ (- e)) (100 * L) (100 * H) Hd
                ltac:(nia) ltac:(nia)) as Hb.
  exists m, e. unfold hundredths. destruct (0 <=? e)%Z eqn:H0e; [apply Z.leb_le in H0e; lia|].
  destruct (half_even (Z.pos m * 100) (2 ^ (- e))) as [|n|n]; try lia.
  exists n. split; [exact E|]. split; [reflexivity | exact Hb].
Qed.

(** [round(x, 2)] of a double between the integers [L] and [H]. *)
Lemma round2_between (x : float) (L H : Z) (Lf Hf : float) :
  nonneg x -> (1 <= L)%Z -> (H < 2 ^ 52)%Z ->
  inject_Z L <= val x -> val x <= inject_Z H ->
  cents_between (100 * L) (100 * (H - L) + 1) Lf Hf = true ->
  (Lf <=? round2 x)%float = true /\ (round2 x <=? Hf)%float = true.
Proof.
  intros Hx HL HH Hlo Hhi Hall.
  destruct (hundredths_between x L H Hx HL HH Hlo Hhi) as (m & e & n & E & Hn & Hb).
  unfold round2. rewrite E, Hn. apply (cents_between_spec _ _ _ _ _ Hall). lia.
Qed.

(** [d * 1000] for a double [d] below the double [hi]. *)
Lemma millis_between (d hi : float) (mh th x L H : Z) :
  nonneg d -> inject_Z L <= val d * 1000 ->
  val d < val hi -> val hi == inject_Z mh * pow2 th -> (2 ^ 52 + 1 <= mh)%Z ->
  inject_Z (mh - 1) * pow2 th * 1000 <= inject_Z H ->
  inject_Z H < pow2 x -> (0 <= x <= 53)%Z ->
  nonneg (d * 1000) /\ inject_Z L <= val (d * 1000) /\ val (d * 1000) <= inject_Z H.
Proof.
  intros Hd Hlo Hhi Hvh Hmh Htop HH Hx.
  assert (V : val 1000 == 1000) by reflexivity.
  rewrite Hvh in Hhi. apply (below_grid_point d mh th Hd Hmh) in Hhi.
  assert (Hp : val d * val 1000 <= inject_Z H).
  { rewrite V. apply Qle_trans with (2 := Htop). apply Qmult_le_compat_r; [exact Hhi | lra]. }
  assert (Hbig : pow2 x <= pow2 1023) by (apply pow2_le; lia).
  destruct (mul_rounds d 1000) as [Hv Hround]; [exact Hd | exact I | | lra |].
  { right. exists 8796093022208000%positive, (-43)%Z. split; reflexivity. }
  assert (Hpx : val d * val 1000 < pow2 x) by lra.
  split; [exact Hv|]. split.
  - rewrite <- (integer_on_grid L (x - 53)) by lia.
    apply (rounds_ge _ _ _ _ x Hround Hpx); [lia|].
    rewrite integer_on_grid by lia. now rewrite V.
  - rewrite <- (integer_on_grid H (x - 53)) by lia.
    apply (rounds_le _ _ _ _ x Hround Hpx); [lia|].
    rewrite integer_on_grid by lia. exact Hp.
Qed.

End Milliseconds.

(** [round(delay * 1000, 2)] for the delay of /api/users. *)
Lemma users_millis (d : float) :
  nonneg d -> (val 0.01 <= val d)%Q -> (val d < val 0.05)%Q ->
  (10 <=? round2 (d * 1000))%float = true /\ (round2 (d * 1000) <=? 50)%float = true.
Proof.
  intros Hd Hlo Hhi.
  assert (V : (val 0.01 == 5764607523034235 # 576460752303423488)%Q) by reflexivity.
  destruct (millis_between d 0.05 7205759403792794 (-57) 6 10 50 Hd) as (Hx & Hl & Hh);
    try assumption; try lia; try reflexivity.
  { change (inject_Z 10) with (10 # 1)%Q. lra. }
  { vm_compute. discriminate. }
  apply (round2_between _ 10 50); try assumption; try lia. exact cents_10_50.
Qed.

(** [round(delay * 1000, 2)] for the delay of /api/orders. *)
Lemma orders_millis (d : float) :
  nonneg d -> (val 0.02 <= val d)%Q -> (val d < val 0.08)%Q ->
  (20 <=? round2 (d * 1000))%float = true /\ (round2 (d * 1000) <=? 80)%float = true.
Proof.
  intros Hd Hlo Hhi.
  assert (V : (val 0.02 == 5764607523034235 # 288230376151711744)%Q) by reflexivity.
  destruct (millis_between d 0.08 5764607523034235 (-56) 7 20 80 Hd) as (Hx & Hl & Hh);
    try assumption; try lia; try reflexivity.
  { change (inject_Z 20) with (20 # 1)%Q. lra. }
  { vm_compute. discriminate. }
  apply (round2_between _ 20 80); try assumption; try lia. exact cents_20_80.
Qed.

(** X16. For a draw r of random.random() in [0, 1), /api/users waits for
    0.01 + (0.05 - 0.01) * r seconds, a time in [0.01, 0.05): this is the one
    argument of time.sleep in the request, made inside the database_query
    span, a child of the get_users span; the span records this same delay
    in milliseconds, rounded to two places, as db.query_time_ms, beside
    the system postgresql, the operation SELECT and the table users. *)
Theorem users_query_delay (w : world) :
  (0 <=? rng w (draws w))%float = true ->
  (rng w (draws w) <? 1)%float = true ->
  exists (delay : float) (s : span),
    delay = (0.01 + (0.05 - 0.01) * rng w (draws w))%float /\
    (0.01 <=? delay)%float = true /\ (delay <? 0.05)%float = true /\
    sleeps (performed ApiUsers w) = [delay] /\
    opened ApiUsers w !! 1 = Some s /\
    span_name s = "database_query" /\
    span_parent s = Some (length (spans w)) /\
    attributes s !! "db.query_time_ms" = Some (VFloat (round2 (delay * 1000))) /\
    attributes s !! "db.system" = Some (VStr "postgresql") /\
    attributes s !! "db.operation" = Some (VStr "SELECT") /\
    attributes s !! "db.table" = Some (VStr "users").
Proof.
  intros H0 H1. destruct (uniform_users _ H0 H1) as (_ & _ & _ & Hlo & Hhi).
  destruct (opened_return ApiUsers w _ _ _ _ _ (get_users_run w)) as (_ & -> & ->).
  eexists _, _. split; [reflexivity|]. split; [exact Hlo|]. split; [exact Hhi|].
  split; [reflexivity|]. split; [reflexivity|]. split; [reflexivity|]. split; [reflexivity|].
  cbn [db_span attributes]. split; [apply lookup_insert_eq|].
  rewrite !(lookup_insert_ne _ "db.query_time_ms") by discriminate.
  split; [rewrite !lookup_insert_ne by discriminate; apply lookup_insert_eq|].
  split; [rewrite lookup_insert_ne by discriminate; apply lookup_insert_eq|].
  apply lookup_insert_eq.
Qed.

Lemma users_query_delay_witness :
  exists (delay : float) (s : span),
    (0.01 <=? delay)%float = true /\ (delay <? 0.05)%float = true /\
    sleeps (performed ApiUsers (bare 0.25)) = [delay] /\
    opened ApiUsers (bare 0.25) !! 1 = Some s /\
    attributes s !! "db.query_time_ms" = Some (VFloat (round2 (delay * 1000))) /\
    round2 (delay * 1000) = 20%float.
Proof.
  destruct (users_query_delay (bare 0.25)) as
    (delay & s & Hd & Hlo & Hhi & Hsl & Hs & _ & _ & Hms & _).
  - reflexivity.
  - reflexivity.
  - exists delay, s. split; [exact Hlo|]. split; [exact Hhi|]. split; [exact Hsl|].
    split; [exact Hs|]. split; [exact Hms|]. rewrite Hd. vm_compute. reflexivity.
Defined.

(** X17. For a draw r of random.random() in [0, 1), /api/orders waits for
    0.02 + (0.08 - 0.02) * r seconds, a time in [0.02, 0.08): this is the one
    argument of time.sleep in the request, made inside the database_query
    span, a child of the get_orders span; the span records this same delay
    in milliseconds, rounded to two places, as db.query_time_ms, beside
    the system postgresql, the operation SELECT and the table orders. *)
Theorem orders_query_delay (w : world) :
  (0 <=? rng w (draws w))%float = true ->
  (rng w (draws w) <? 1)%float = true ->
  exists (delay : float) (s : span),
    delay = (0.02 + (0.08 - 0.02) * rng w (draws w))%float /\
    (0.02 <=? delay)%float = true /\ (delay <? 0.08)%float = true /\
    sleeps (performed ApiOrders w) = [delay] /\
    opened ApiOrders w !! 1 = Some s /\
    span_name s = "database_query" /\
    span_parent s = Some (length (spans w)) /\
    attributes s !! "db.query_time_ms" = Some (VFloat (round2 (delay * 1000))) /\
    attributes s !! "db.system" = Some (VStr "postgresql") /\
    attributes s !! "db.operation" = Some (VStr "SELECT") /\
    attributes s !! "db.table" = Some (VStr "orders").
Proof.
  intros H0 H1. destruct (uniform_orders _ H0 H1) as (_ & _ & _ & Hlo & Hhi).
  destruct (opened_return ApiOrders w _ _ _ _ _ (get_orders_run w)) as (_ & -> & ->).
  eexists _, _. split; [reflexivity|]. split; [exact Hlo|]. split; [exact Hhi|].
  split; [reflexivity|]. split; [reflexivity|]. split; [reflexivity|]. split; [reflexivity|].
  cbn [db_span attributes]. split; [apply lookup_insert_eq|].
  rewrite !(lookup_insert_ne _ "db.query_time_ms") by discriminate.
  split; [rewrite !lookup_insert_ne by discriminate; apply lookup_insert_eq|].
  split; [rewrite lookup_insert_ne by discriminate; apply lookup_insert_eq|].
  apply lookup_insert_eq.
Qed.

Lemma orders_query_delay_witness :
  exists (delay : float) (s : span),
    (0.02 <=? delay)%float = true /\ (delay <? 0.08)%float = true /\
    sleeps (performed ApiOrders (bare 0.25)) = [delay] /\
    opened ApiOrders (bare 0.25) !! 1 = Some s /\
    attributes s !! "db.query_time_ms" = Some (VFloat (round2 (delay * 1000))) /\
    round2 (delay * 1000) = 35%float.
Proof.
  destruct (orders_query_delay (bare 0.25)) as
    (delay & s & Hd & Hlo & Hhi & Hsl & Hs & _ & _ & Hms & _).
  - reflexivity.
  - reflexivity.
  - exists delay, s. split; [exact Hlo|]. split; [exact Hhi|]. split; [exact Hsl|].
    split; [exact Hs|]. split; [exact Hms|]. rewrite Hd. vm_compute. reflexivity.
Defined.

(** X18. For a draw of random.random() in [0, 1), the query time that
    /api/users records as db.query_time_ms on its database_query span,
    round(delay * 1000, 2), lies between 10 and 50 milliseconds. *)
Theorem users_query_time_range (w : world) :
  (0 <=? rng w (draws w))%float = true ->
  (rng w (draws w) <? 1)%float = true ->
  exists (ms : float) (s : span),
    opened ApiUsers w !! 1 = Some s /\
    span_name s = "database_query" /\
    attributes s !! "db.query_time_ms" = Some (VFloat ms) /\
    (10 <=? ms)%float = true /\ (ms <=? 50)%float = true.
Proof.
  intros H0 H1. destruct (uniform_users _ H0 H1) as (Hd & Hlo & Hhi & _).
  destruct (users_millis _ Hd Hlo Hhi) as [Hmin Hmax].
  destruct (opened_return ApiUsers w _ _ _ _ _ (get_users_run w)) as (_ & -> & _).
  eexists _, _. split; [reflexivity|]. split; [reflexivity|].
  cbn [db_span attributes]. split; [apply lookup_insert_eq|]. split; assumption.
Qed.

Lemma users_query_time_range_witness :
  exists (ms : float) (s : span),
    opened ApiUsers (bare 0.25) !! 1 = Some s /\
    attributes s !! "db.query_time_ms" = Some (VFloat ms) /\
    (10 <=? ms)%float = true /\ (ms <=? 50)%float = true.
Proof.
  destruct (users_query_time_range (bare 0.25)) as (ms & s & Hs & _ & Hms & Hmin & Hmax).
  - reflexivity.
  - reflexivity.
  - exists ms, s. repeat split; assumption.
Defined.

(** X19. For a draw of random.random() in [0, 1), the query time that
    /api/orders records as db.query_time_ms on its database_query span,
    round(delay * 1000, 2), lies between 20 and 80 milliseconds. *)
Theorem orders_query_time_range (w : world) :
  (0 <=? rng w (draws w))%float = true ->
  (rng w (draws w) <? 1)%float = true ->
  exists (ms : float) (s : span),
    opened ApiOrders w !! 1 = Some s /\
    span_name s = "database_query" /\
    attributes s !! "db.query_time_ms" = Some (VFloat ms) /\
    (20 <=? ms)%float = true /\ (ms <=? 80)%float = true.
Proof.
  intros H0 H1. destruct (uniform_orders _ H0 H1) as (Hd & Hlo & Hhi & _).
  destruct (orders_millis _ Hd Hlo Hhi) as [Hmin Hmax].
  destruct (opened_return ApiOrders w _ _ _ _ _ (get_orders_run w)) as (_ & -> & _).
  eexists _, _. split; [reflexivity|]. split; [reflexivity|].
  cbn [db_span attributes]. split; [apply lookup_insert_eq|]. split; assumption.
Qed.

Lemma orders_query_time_range_witness :
  exists (ms : float) (s : span),
    opened ApiOrders (bare 0.25) !! 1 = Some s /\
    attributes s !! "db.query_time_ms" = Some (VFloat ms) /\
    (20 <=? ms)%float = true /\ (ms <=? 80)%float = true.
Proof.
  destruct (orders_query_time_range (bare 0.25)) as (ms & s & Hs & _ & Hms & Hmin & Hmax).
  - reflexivity.
  - reflexivity.
  - exists ms, s. repeat split; assumption.
Defined.

(** ** The random numbers of a sequence of requests *)

Lemma serve_draws (r : route) (w : world) :
  draws (snd (serve r w)) = draws_of r + draws w /\ rng (snd (serve r w)) = rng w.
Proof.
  by_route r w; rewrite Hserve; cbn [snd after draws rng draws_of]; try (split; reflexivity).
  destruct (current w); split; reflexivity.
Qed.

Lemma error_status (w : world) :
  resp_status (fst (serve ApiError w)) = if fails w then 500 else 200.
Proof.
  destruct (fails w) eqn:Hdraw.
  - now rewrite (serve_failure w Hdraw).
  - now destruct (opened_return ApiError w _ _ _ _ _ (error_endpoint_return w Hdraw)) as (-> & _).
Qed.

(** X20. In a sequence of requests the random numbers are used in order, one by
    every request but those to / and /health: a request to /api/error
    fails exactly when the number at its place in this order is below 0.5. *)
Theorem error_outcome_in_sequence (rs : list route) (w : world) (k : nat) (resp : response) :
  rs !! k = Some ApiError ->
  fst (serve_all rs w) !! k = Some resp ->
  resp_status resp =
    if (rng w (sum_list (draws_of <$> take k rs) + draws w) <? 0.5)%float then 500 else 200.
Proof.
  revert w k. induction rs as [|r rs IH]; intros w k Hk Hresp; [discriminate|].
  cbn [serve_all] in Hresp.
  destruct (serve_draws r w) as [Hdraws Hrng].
  destruct (serve r w) as [resp1 w1] eqn:Hserve. cbn [fst snd] in *.
  specialize (IH w1).
  destruct (serve_all rs w1) as [resps w2]. cbn [fst] in *.
  destruct k as [|k]; cbn [lookup list_lookup] in Hk, Hresp.
  - injection Hk as ->. injection Hresp as <-.
    pose proof (error_status w) as Hstatus. rewrite Hserve in Hstatus. exact Hstatus.
  - rewrite (IH k Hk Hresp), Hrng, Hdraws.
    cbn [take]. rewrite fmap_cons. cbn [sum_list].
    replace (draws_of r + sum_list (draws_of <$> take k rs) + draws w)
      with (sum_list (draws_of <$> take k rs) + (draws_of r + draws w)) by lia.
    reflexivity.
Qed.

Lemma error_outcome_in_sequence_witness :
  map resp_status (fst (serve_all [ApiError; Home; ApiUsers; ApiError; ApiError] (bare 0.25))) =
    [500; 200; 200; 500; 200].
Proof.
  assert (Hall : exists r0 r1 r2 r3 r4,
            fst (serve_all [ApiError; Home; ApiUsers; ApiError; ApiError] (bare 0.25)) =
              [r0; r1; r2; r3; r4] /\
            resp_status r0 = 500 /\ resp_status r1 = 200 /\ resp_status r2 = 200).
  { eexists _, _, _, _, _. split; [vm_compute; reflexivity|]. repeat split. }
  destruct Hall as (r0 & r1 & r2 & r3 & r4 & Hall & H0 & H1 & H2).
  pose proof (error_outcome_in_sequence [ApiError; Home; ApiUsers; ApiError; ApiError]
                (bare 0.25) 3 r3 eq_refl) as H3.
  pose proof (error_outcome_in_sequence [ApiError; Home; ApiUsers; ApiError; ApiError]
                (bare 0.25) 4 r4 eq_refl) as H4.
  rewrite Hall in *. cbn [map]. rewrite H0, H1, H2, (H3 eq_refl), (H4 eq_refl). reflexivity.
Defined.
